(** * Captcha breaker extension: detector, image extractor and solver client

    A shallow embedding of [content.js], [background.js] and
    [js/captchaSolverApi.js].  JavaScript values are an inductive type, the
    page is an element tree whose nodes are addressed by their path, and the
    scripts run in a state-and-exception monad over a [World] that records
    what they did to the page and to the network.  What the browser decides
    (canvas, network, storage, file reader) is read from a [Host] record.
    Numbers are IEEE 754 doubles, as in the language. *)

From Stdlib Require Import ZArith List String Ascii Reals Lia Lra DecimalString.
From Stdlib Require Import Sorted Permutation Floats QArith Qreals.
From stdpp Require Import base gmap strings list.
Import ListNotations.
Local Open Scope string_scope.
Local Open Scope Z_scope.
Local Open Scope list_scope.
Set Warnings "-register-all".

(** ** JavaScript values *)

Module JS.

(** Values as [JSON.parse] and message passing produce them, with
    [undefined] for absent properties. *)
Inductive Value : Type :=
  | VUndefined
  | VNull
  | VBool (b : bool)
  | VNum (n : float)
  | VStr (s : string)
  | VArr (items : list Value)
  | VObj (fields : list (string * Value)).

(** What a [throw] or a rejected promise carries: an error object with a
    name and a message, or the event object a [FileReader] rejects with. *)
Inductive Thrown : Type :=
  | JsError (name message : string)
  | EventObject (type : string).

Inductive Completion (A : Type) : Type :=
  | Normal (a : A)
  | Throw (t : Thrown).
Arguments Normal {A} a.
Arguments Throw {A} t.

(** [new Error(msg)] *)
Definition Error (msg : string) : Thrown := JsError "Error" msg.

(** [error.message] *)
Definition message_of (t : Thrown) : Value :=
  match t with
  | JsError _ m => VStr m
  | EventObject _ => VUndefined
  end.

(** ToBoolean: the test of [if], [!], [&&] and [||]. *)
Definition ToBoolean (v : Value) : bool :=
  match v with
  | VUndefined | VNull => false
  | VBool b => b
  | VNum n => negb ((n =? 0)%float || PrimFloat.is_nan n)
  | VStr s => negb (String.eqb s "")
  | VArr _ | VObj _ => true
  end.

(** ToString, as a template literal and a DOM string property apply it.
    [numberToString] is Number::toString, the shortest decimal that reads
    back as the same double. *)
Fixpoint ToString (numberToString : float -> string) (v : Value) : string :=
  match v with
  | VUndefined => "undefined"
  | VNull => "null"
  | VBool true => "true"
  | VBool false => "false"
  | VNum n => numberToString n
  | VStr s => s
  | VArr items =>
      (fix join (l : list Value) : string :=
         match l with
         | [] => ""
         | x :: rest =>
             let sx := match x with
                       | VUndefined | VNull => ""
                       | _ => ToString numberToString x
                       end in
             match rest with
             | [] => sx
             | _ :: _ => sx +:+ "," +:+ join rest
             end
         end) items
  | VObj _ => "[object Object]"
  end.

Fixpoint assoc {A : Type} (k : string) (l : list (string * A)) : option A :=
  match l with
  | [] => None
  | (k', v) :: rest => if String.eqb k k' then Some v else assoc k rest
  end.

(** [v.k] for the property names the scripts read ([data], [message],
    [solution], [error], [action], [imageDataUrl]): an own field of an
    object, [undefined] on any other value, a [TypeError] on [null] and
    [undefined]. *)
Definition Get (v : Value) (k : string) : Completion Value :=
  match v with
  | VUndefined =>
      Throw (JsError "TypeError" ("Cannot read properties of undefined (reading '" +:+ k +:+ "')"))
  | VNull =>
      Throw (JsError "TypeError" ("Cannot read properties of null (reading '" +:+ k +:+ "')"))
  | VObj fields =>
      match assoc k fields with
      | Some x => Normal x
      | None => Normal VUndefined
      end
  | _ => Normal VUndefined
  end.

(** [a || b] *)
Definition or_else (a b : Value) : Value := if ToBoolean a then a else b.

End JS.
Export JS.

(** ** Strings *)

(** [sub] occurs in [s]. *)
Fixpoint contains (sub s : string) : bool :=
  String.prefix sub s ||
  match s with
  | EmptyString => false
  | String _ s' => contains sub s'
  end.

(** ASCII lowercase. *)
Definition asciiLower (c : ascii) : ascii :=
  let n := nat_of_ascii c in
  if ((65 <=? n) && (n <=? 90))%nat then ascii_of_nat (n + 32) else c.

Fixpoint toLowerCase (s : string) : string :=
  match s with
  | EmptyString => EmptyString
  | String c s' => String (asciiLower c) (toLowerCase s')
  end.

(** The string without its line feeds and carriage returns. *)
Fixpoint stripNewlines (s : string) : string :=
  match s with
  | EmptyString => EmptyString
  | String c s' =>
      if ((nat_of_ascii c =? 10) || (nat_of_ascii c =? 13))%nat
      then stripNewlines s'
      else String c (stripNewlines s')
  end.

(** ** The page: an element tree *)

(** [getBoundingClientRect()]: the top-left corner, in viewport
    coordinates. *)
Record DOMRect : Type := { rect_x : float; rect_y : float }.

Inductive Element : Type :=
  El (tagName : string) (attributes : list (string * string))
     (boundingClientRect : DOMRect) (children : list Element).

Definition tagName (e : Element) : string := let 'El t _ _ _ := e in t.
Definition attributes (e : Element) : list (string * string) := let 'El _ a _ _ := e in a.
Definition getBoundingClientRect (e : Element) : DOMRect := let 'El _ _ r _ := e in r.
Definition children (e : Element) : list Element := let 'El _ _ _ c := e in c.

Definition getAttribute (e : Element) (name : string) : option string :=
  assoc name (attributes e).

(** An element reference: the child indices from the root element down to
    it, with the element found there. *)
Definition Path : Type := list nat.
Record Node : Type := { node_path : Path; node_elem : Element }.

(** The elements of a subtree in document order (the root of the subtree
    first). *)
Fixpoint subtree (p : Path) (e : Element) : list Node :=
  {| node_path := p; node_elem := e |} ::
  (fix each (i : nat) (cs : list Element) : list Node :=
     match cs with
     | [] => []
     | c :: cs' => subtree (p ++ [i]) c ++ each (S i) cs'
     end) 0%nat (children e).

Definition descendants (n : Node) : list Node :=
  tl (subtree (node_path n) (node_elem n)).

(** An HTML document: its tree, from the root element. *)
Record Document : Type := { documentElement : Element }.

Definition origin : DOMRect := {| rect_x := 0; rect_y := 0 |}.

Definition isBody (e : Element) : bool :=
  String.eqb (tagName e) "body" || String.eqb (tagName e) "frameset".

Fixpoint firstBody (i : nat) (cs : list Element) : option Node :=
  match cs with
  | [] => None
  | c :: cs' =>
      if isBody c then Some {| node_path := [i]; node_elem := c |}
      else firstBody (S i) cs'
  end.

(** [document.body]: the first [body] or [frameset] child of the [html]
    element, [null] when there is none. *)
Definition document_body (d : Document) : option Node :=
  if String.eqb (tagName (documentElement d)) "html"
  then firstBody 0 (children (documentElement d))
  else None.

(** Every element of the document, in document order. *)
Definition allElements (d : Document) : list Node := subtree [] (documentElement d).

Fixpoint elementAt (e : Element) (p : Path) : option Element :=
  match p with
  | [] => Some e
  | i :: p' =>
      match nth_error (children e) i with
      | Some c => elementAt c p'
      | None => None
      end
  end.

(** ** Selectors *)

Inductive AttrTest : Type :=
  | AttrContains (name sub : string)     (* [name*="sub"] *)
  | AttrEquals (name value : string).    (* [name="value"] *)

(** A compound selector: a type selector followed by attribute tests. *)
Record Selector : Type := { sel_tag : string; sel_attrs : list AttrTest }.

(** The attributes whose values a selector matches without regard to
    ASCII case, in an HTML document. *)
Definition caseInsensitiveAttributes : list string :=
  [ "accept"; "accept-charset"; "align"; "alink"; "axis"; "bgcolor"; "charset";
    "checked"; "clear"; "codetype"; "color"; "compact"; "declare"; "defer"; "dir";
    "direction"; "disabled"; "enctype"; "face"; "frame"; "hreflang"; "http-equiv";
    "lang"; "language"; "link"; "media"; "method"; "multiple"; "nohref";
    "noresize"; "noshade"; "nowrap"; "readonly"; "rel"; "rev"; "rules"; "scope";
    "scrolling"; "selected"; "shape"; "target"; "text"; "type"; "valign";
    "valuetype"; "vlink" ].

(** The attribute value and the selector's value, as they are compared. *)
Definition folded (name value : string) : string :=
  if existsb (String.eqb name) caseInsensitiveAttributes
  then toLowerCase value else value.

Definition attrTest (e : Element) (t : AttrTest) : bool :=
  match t with
  | AttrContains name sub =>
      match getAttribute e name with
      | Some v => negb (String.eqb sub "") && contains (folded name sub) (folded name v)
      | None => false
      end
  | AttrEquals name value =>
      match getAttribute e name with
      | Some v => String.eqb (folded name v) (folded name value)
      | None => false
      end
  end.

Definition matches (s : Selector) (e : Element) : bool :=
  String.eqb (tagName e) (sel_tag s) && forallb (attrTest e) (sel_attrs s).

Definition nodeMatches (s : Selector) (n : Node) : bool := matches s (node_elem n).

(** ** The world the scripts act on *)

(** A query the content script makes: [document.querySelector(sel)] when
    the scope is [None], [scope.querySelectorAll(sel)] otherwise. *)
Record DomQuery : Type := { query_scope : option Path; query_selector : Selector }.

(** [new Event(type, { bubbles })] dispatched on a target. *)
Record Dispatched : Type :=
  { event_target : Path; event_type : string; event_bubbles : bool }.

(** A [fetch] call: URL, method, headers and the [FormData] entries of
    its body. *)
Record Request : Type :=
  { req_url : string;
    req_method : string;
    req_headers : list (string * string);
    req_body : list (string * string) }.

Record World : Type :=
  { inputValue : gmap Path string;     (* the [value] written to an element *)
    dispatched : list Dispatched;      (* events dispatched, oldest first *)
    domQueries : list DomQuery;        (* selector queries, oldest first *)
    network : list Request }.          (* requests issued, oldest first *)

Definition emptyWorld : World :=
  {| inputValue := ∅; dispatched := []; domQueries := []; network := [] |}.

Record Blob : Type := { blob_type : string; blob_bytes : string }.

(** What [fetch] resolves with.  [response.json()] and [response.blob()]
    are given by their outcome. *)
Record Response : Type :=
  { status : Z;
    statusText : string;
    response_json : Completion Value;
    response_blob : Completion Blob }.

(** [response.ok] *)
Definition ok (r : Response) : bool := (200 <=? status r) && (status r <=? 299).

Record CaptchaSolverConfig : Type := { apiUrl : string; apiKey : string }.

(** What the browser answers. *)
Record Host : Type :=
  { storage_captchaSolverConfig : option CaptchaSolverConfig;
    host_fetch : Request -> Completion Response;
    canvas_getContext : bool;                      (* a 2D context is returned *)
    canvas_drawImage : Path -> option Thrown;      (* [None]: drawn *)
    canvas_toDataURL : Path -> Completion string;
    reader_readAsDataURL : Blob -> Completion string;
    number_toString : float -> string;             (* Number::toString *)
    url_resolve : string -> string;                (* against the document URL *)
    input_sanitize : string -> Element -> string -> string }.
                        (* value sanitization of the other input types *)

(** ** Computations: state and exceptions *)

Definition M (A : Type) : Type := World -> Completion A * World.

Definition ret {A : Type} (a : A) : M A := fun w => (Normal a, w).

Definition throw {A : Type} (t : Thrown) : M A := fun w => (Throw t, w).

Definition bind {A B : Type} (m : M A) (k : A -> M B) : M B :=
  fun w =>
    match m w with
    | (Normal a, w') => k a w'
    | (Throw t, w') => (Throw t, w')
    end.

(** [try { m } catch (e) { handler e }], also [promise.catch(handler)]. *)
Definition try_catch {A : Type} (m : M A) (handler : Thrown -> M A) : M A :=
  fun w =>
    match m w with
    | (Normal a, w') => (Normal a, w')
    | (Throw t, w') => handler t w'
    end.

Definition lift {A : Type} (c : Completion A) : M A := fun w => (c, w).

Notation "x <- m ;; k" := (bind m (fun x => k))
  (at level 100, m at next level, right associativity).
Notation "m ;;; k" := (bind m (fun _ => k))
  (at level 100, right associativity).

(** [fetch(url, init)]: the request goes out, the host answers. *)
Definition fetch (h : Host) (r : Request) : M Response :=
  fun w =>
    (host_fetch h r,
     {| inputValue := inputValue w; dispatched := dispatched w;
        domQueries := domQueries w; network := network w ++ [r] |}).

(** ** js/captchaSolverApi.js *)

Definition DEFAULT_SOLVER_CONFIG : CaptchaSolverConfig :=
  {| apiUrl := "http://localhost:8000/ocr"; apiKey := "" |}.

Definition getSolverConfig (h : Host) : M CaptchaSolverConfig :=
  ret (match storage_captchaSolverConfig h with
       | Some config => config
       | None => DEFAULT_SOLVER_CONFIG
       end).

Definition solveCaptcha (h : Host) (imageDataUrl : string) : M Value :=
  config <- getSolverConfig h ;;
  if negb (ToBoolean (VStr (apiUrl config))) then
    throw (Error "Captcha solver API URL is not configured.")
  else
    try_catch
      (let body := [("image", imageDataUrl)] in
       response <- fetch h {| req_url := apiUrl config;
                              req_method := "POST";
                              req_headers :=
                                if ToBoolean (VStr (apiKey config))
                                then [("X-API-Key", apiKey config)] else [];
                              req_body := body |} ;;
       if negb (ok response) then
         errorData <- try_catch (lift (response_json response))
                        (fun _ => ret (VObj [("message", VStr (statusText response))])) ;;
         msg <- lift (Get errorData "message") ;;
         throw (Error ("Captcha solver API error: "
                         +:+ ToString (number_toString h)
                               (or_else msg (VStr "Unknown error"))))
       else
         data <- lift (response_json response) ;;
         if negb (ToBoolean data) then
           throw (Error "Captcha solver API did not return a valid solution.")
         else
           d <- lift (Get data "data") ;;
           if negb (ToBoolean d) then
             throw (Error "Captcha solver API did not return a valid solution.")
           else
             lift (Get data "data"))
      (fun error => throw error).

(** ** content.js *)

Definition logQuery (q : DomQuery) : M unit :=
  fun w =>
    (Normal tt,
     {| inputValue := inputValue w; dispatched := dispatched w;
        domQueries := domQueries w ++ [q]; network := network w |}).

(** [document.querySelector(sel)]: the first match in document order. *)
Definition document_querySelector (d : Document) (sel : Selector) : M (option Node) :=
  logQuery {| query_scope := None; query_selector := sel |} ;;;
  ret (List.find (nodeMatches sel) (allElements d)).

(** [Array.from(parent.querySelectorAll(sel))]: the matching descendants
    of [parent] in document order; a [TypeError] when [parent] is [null]. *)
Definition querySelectorAll (parent : option Node) (sel : Selector) : M (list Node) :=
  match parent with
  | Some scope =>
      logQuery {| query_scope := Some (node_path scope); query_selector := sel |} ;;;
      ret (List.filter (nodeMatches sel) (descendants scope))
  | None =>
      throw (JsError "TypeError"
               "Cannot read properties of null (reading 'querySelectorAll')")
  end.

(** The chain of elements from [e] (at path [pre]) down along [p]. *)
Fixpoint chain (pre : Path) (e : Element) (p : Path) : list Node :=
  {| node_path := pre; node_elem := e |} ::
  match p with
  | [] => []
  | i :: p' =>
      match nth_error (children e) i with
      | Some c => chain (pre ++ [i]) c p'
      | None => []
      end
  end.

(** [n.closest(sel)]: the nearest inclusive ancestor matching [sel]. *)
Definition closest (d : Document) (sel : Selector) (n : Node) : option Node :=
  List.find (nodeMatches sel) (rev (chain [] (documentElement d) (node_path n))).

Definition img_contains (attr : string) : Selector :=
  {| sel_tag := "img"; sel_attrs := [AttrContains attr "captcha"] |}.

Definition input_contains (attr : string) : Selector :=
  {| sel_tag := "input"; sel_attrs := [AttrContains attr "captcha"] |}.

Definition captchaImageSelectors : list Selector :=
  [ img_contains "title";
    img_contains "src";
    img_contains "alt";
    img_contains "id";
    img_contains "class";
    img_contains "aria-label" ].

Definition captchaInputSelectors : list Selector :=
  [ input_contains "id";
    input_contains "name";
    input_contains "class";
    input_contains "placeholder";
    input_contains "aria-label";
    {| sel_tag := "input";
       sel_attrs := [AttrEquals "type" "text"; AttrEquals "maxlength" "6"] |};
    {| sel_tag := "input";
       sel_attrs := [AttrEquals "type" "text";
                     AttrEquals "pattern" "[a-zA-Z0-9]{4,6}"] |} ].

Definition form_selector : Selector := {| sel_tag := "form"; sel_attrs := [] |}.

(** [Math.pow(x, 2)]: for the exponent 2 the engines return the product
    of [x] with itself, rounded to the nearest double. *)
Definition Math_pow2 (x : float) : float := (x * x)%float.

(** [Math.sqrt(x)]: the square root, rounded to the nearest double. *)
Definition Math_sqrt (x : float) : float := PrimFloat.sqrt x.

(** The callback of [inputs.sort]: [distA - distB]. *)
Definition compareFn (captchaImage a b : Node) : float :=
  let imgRect := getBoundingClientRect (node_elem captchaImage) in
  let aRect := getBoundingClientRect (node_elem a) in
  let bRect := getBoundingClientRect (node_elem b) in
  let distA := Math_sqrt (Math_pow2 (rect_x imgRect - rect_x aRect)
                          + Math_pow2 (rect_y imgRect - rect_y aRect))%float in
  let distB := Math_sqrt (Math_pow2 (rect_x imgRect - rect_x bRect)
                          + Math_pow2 (rect_y imgRect - rect_y bRect))%float in
  (distA - distB)%float.

(** How [sort] reads the number a callback returns: negative, the first
    argument goes first; positive, the second; zero or NaN, they tie. *)
Definition SortCompare (v : float) : comparison :=
  if (v <? 0)%float then Lt else if (0 <? v)%float then Gt else Eq.

(** A stable sort by insertion.  [sort] is stable, so for a callback that
    orders the elements consistently every implementation returns this
    array. *)
Fixpoint sort_insert {A : Type} (cmp : A -> A -> comparison) (x : A) (l : list A) : list A :=
  match l with
  | [] => [x]
  | y :: l' =>
      match cmp x y with
      | Gt => y :: sort_insert cmp x l'
      | _ => x :: l
      end
  end.

Fixpoint Array_sort {A : Type} (cmp : A -> A -> comparison) (l : list A) : list A :=
  match l with
  | [] => []
  | x :: l' => sort_insert cmp x (Array_sort cmp l')
  end.

(** [Array.prototype.sort(comparefn)] *)
Definition Array_prototype_sort {A : Type} (comparefn : A -> A -> float) (l : list A)
  : list A :=
  Array_sort (fun a b => SortCompare (comparefn a b)) l.

Record CaptchaCandidate : Type := { image : Node; input : Node }.

(** The first loop of [findCaptcha]. *)
Fixpoint findCaptchaImage (d : Document) (selectors : list Selector) : M (option Node) :=
  match selectors with
  | [] => ret None
  | selector :: rest =>
      captchaImage <- document_querySelector d selector ;;
      match captchaImage with
      | Some i => ret (Some i)
      | None => findCaptchaImage d rest
      end
  end.

(** The second loop of [findCaptcha]. *)
Fixpoint findCaptchaInput (captchaImage : Node) (parent : option Node)
    (selectors : list Selector) : M (option Node) :=
  match selectors with
  | [] => ret None
  | selector :: rest =>
      inputs <- querySelectorAll parent selector ;;
      match Array_prototype_sort (compareFn captchaImage) inputs with
      | first :: _ => ret (Some first)
      | [] => findCaptchaInput captchaImage parent rest
      end
  end.

(** [captchaImage.closest('form') || document.body] *)
Definition searchScope (d : Document) (captchaImage : Node) : option Node :=
  match closest d form_selector captchaImage with
  | Some form => Some form
  | None => document_body d
  end.

Definition findCaptcha (d : Document) : M (option CaptchaCandidate) :=
  captchaImage <- findCaptchaImage d captchaImageSelectors ;;
  match captchaImage with
  | None => ret None
  | Some img =>
      let parent := searchScope d img in
      captchaInput <- findCaptchaInput img parent captchaInputSelectors ;;
      match captchaInput with
      | None => ret None
      | Some inp => ret (Some {| image := img; input := inp |})
      end
  end.

(** [img.src]: the [src] attribute resolved against the document URL,
    the empty string without the attribute. *)
Definition src (h : Host) (img : Node) : string :=
  match getAttribute (node_elem img) "src" with
  | Some u => url_resolve h u
  | None => ""
  end.

(** The request of [fetch(img.src)]. *)
Definition imageRequest (h : Host) (img : Node) : Request :=
  {| req_url := src h img; req_method := "GET"; req_headers := []; req_body := [] |}.

Definition getImageDataUrl (h : Host) (img : Node) : M string :=
  if negb (canvas_getContext h) then
    throw (Error "Could not get 2D context from canvas.")
  else
    match canvas_drawImage h (node_path img) with
    | Some t => throw t
    | None =>
        try_catch
          (lift (canvas_toDataURL h (node_path img)))
          (fun error =>
             response <- fetch h (imageRequest h img) ;;
             blob <- lift (response_blob response) ;;
             lift (reader_readAsDataURL h blob))
    end.

(** The keywords of the [type] attribute of an [input]. *)
Definition inputTypeKeywords : list string :=
  [ "hidden"; "text"; "search"; "tel"; "url"; "email"; "password"; "date";
    "month"; "week"; "time"; "datetime-local"; "number"; "range"; "color";
    "checkbox"; "radio"; "file"; "submit"; "image"; "reset"; "button" ].

(** The state of the [type] attribute: its keyword, whatever the case;
    Text when the attribute is missing or not a keyword. *)
Definition inputType (e : Element) : string :=
  match getAttribute e "type" with
  | Some t =>
      let k := toLowerCase t in
      if existsb (String.eqb k) inputTypeKeywords then k else "text"
  | None => "text"
  end.

(** How the [value] property of an [input] behaves. *)
Inductive ValueMode : Type := ModeValue | ModeDefault | ModeDefaultOn | ModeFilename.

Definition valueMode (type : string) : ValueMode :=
  if String.eqb type "file" then ModeFilename
  else if existsb (String.eqb type) ["hidden"; "submit"; "image"; "reset"; "button"]
  then ModeDefault
  else if existsb (String.eqb type) ["checkbox"; "radio"] then ModeDefaultOn
  else ModeValue.

(** A text field: its value is sanitized by removing line breaks. *)
Definition isTextField (e : Element) : bool :=
  existsb (String.eqb (inputType e)) ["text"; "search"; "tel"; "password"].

(** What [input.value = v] stores in the element, or throws.  A file
    input accepts the empty string only. *)
Definition valueStored (h : Host) (e : Element) (v : Value) : Completion string :=
  let s := match v with
           | VNull => ""
           | _ => ToString (number_toString h) v
           end in
  match valueMode (inputType e) with
  | ModeFilename =>
      if String.eqb s "" then Normal ""
      else Throw (JsError "InvalidStateError"
                    "This input element accepts a filename, which may only be programmatically set to the empty string.")
  | ModeDefault | ModeDefaultOn => Normal s
  | ModeValue =>
      if isTextField e then Normal (stripNewlines s)
      else Normal (input_sanitize h (inputType e) e s)
  end.

Definition writeValue (target : Node) (s : string) : M unit :=
  fun w =>
    (Normal tt,
     {| inputValue := <[node_path target := s]> (inputValue w);
        dispatched := dispatched w;
        domQueries := domQueries w; network := network w |}).

(** [input.value = v] *)
Definition set_value (h : Host) (target : Node) (v : Value) : M unit :=
  s <- lift (valueStored h (node_elem target) v) ;;
  writeValue target s.

(** [target.dispatchEvent(new Event(type, { bubbles: true }))] *)
Definition dispatchEvent (target : Node) (type : string) : M unit :=
  fun w =>
    (Normal tt,
     {| inputValue := inputValue w;
        dispatched := dispatched w ++
                      [{| event_target := node_path target;
                          event_type := type; event_bubbles := true |}];
        domQueries := domQueries w; network := network w |}).

(** [response && response.k] *)
Definition and_get (response : Value) (k : string) : M Value :=
  if ToBoolean response then lift (Get response k) else ret response.

Definition solveCaptchaMessage (imageDataUrl : string) : Value :=
  VObj [("action", VStr "solveCaptcha"); ("imageDataUrl", VStr imageDataUrl)].

(** [runCaptchaBreaker], over what [chrome.runtime.sendMessage] does.
    Console output is left out. *)
Definition runCaptchaBreaker (h : Host) (d : Document)
    (sendMessage : Value -> M Value) : M unit :=
  captchaElements <- findCaptcha d ;;
  match captchaElements with
  | Some c =>
      try_catch
        (imageDataUrl <- getImageDataUrl h (image c) ;;
         response <- sendMessage (solveCaptchaMessage imageDataUrl) ;;
         solution <- and_get response "solution" ;;
         if ToBoolean solution then
           v <- lift (Get response "solution") ;;
           set_value h (input c) v ;;;
           dispatchEvent (input c) "input" ;;;
           dispatchEvent (input c) "change"
         else
           err <- and_get response "error" ;;
           ret tt)
        (fun error => ret tt)
  | None => ret tt
  end.

(** ** background.js *)

(** [v === s] for a string [s] *)
Definition strict_eq_string (v : Value) (s : string) : bool :=
  match v with
  | VStr x => String.eqb x s
  | _ => false
  end.

(** The [onMessage] listener, seen from the sender: the reply that
    [sendResponse] delivers, [undefined] when the listener does not answer. *)
Definition onMessage (h : Host) (request : Value) : M Value :=
  action <- lift (Get request "action") ;;
  if strict_eq_string action "solveCaptcha" then
    imageDataUrl <- lift (Get request "imageDataUrl") ;;
    try_catch
      (solution <- solveCaptcha h (ToString (number_toString h) imageDataUrl) ;;
       ret (VObj [("solution", solution)]))
      (fun error => ret (VObj [("error", message_of error)]))
  else
    ret VUndefined.

(** The content script with the background script answering. *)
Definition runExtension (h : Host) (d : Document) : M unit :=
  runCaptchaBreaker h d (onMessage h).

(** * Vocabulary of the statements *)

(** The value has an own field [k]. *)
Definition hasField (v : Value) (k : string) : bool :=
  match v with
  | VObj fields => match assoc k fields with Some _ => true | None => false end
  | _ => false
  end.

(** The configuration [solveCaptcha] works with. *)
Definition configOf (h : Host) : CaptchaSolverConfig :=
  match storage_captchaSolverConfig h with
  | Some config => config
  | None => DEFAULT_SOLVER_CONFIG
  end.

(** The one request [solveCaptcha] issues. *)
Definition solverRequest (config : CaptchaSolverConfig) (imageDataUrl : string) : Request :=
  {| req_url := apiUrl config;
     req_method := "POST";
     req_headers := if ToBoolean (VStr (apiKey config))
                    then [("X-API-Key", apiKey config)] else [];
     req_body := [("image", imageDataUrl)] |}.

Definition sent (w : World) (r : Request) : World :=
  {| inputValue := inputValue w; dispatched := dispatched w;
     domQueries := domQueries w; network := network w ++ [r] |}.

(** The record of [document.querySelector(s)]. *)
Definition docQuery (s : Selector) : DomQuery :=
  {| query_scope := None; query_selector := s |}.

(** The record of [parent.querySelectorAll(s)]. *)
Definition scopedQuery (parent : Node) (s : Selector) : DomQuery :=
  {| query_scope := Some (node_path parent); query_selector := s |}.

Definition queried (w : World) (qs : list DomQuery) : World :=
  {| inputValue := inputValue w; dispatched := dispatched w;
     domQueries := domQueries w ++ qs; network := network w |}.

(** [x] is the element of [l] at index [i], no element of [l] has a
    smaller key, and every element before index [i] has a larger one. *)
Definition firstMinimum {A : Type} (key : A -> Z) (l : list A) (i : nat) (x : A) : Prop :=
  nth_error l i = Some x
  /\ (forall j y, nth_error l j = Some y -> key x <= key y)
  /\ (forall j y, (j < i)%nat -> nth_error l j = Some y -> key x < key y).

(** *** Doubles *)

Module Double.

Definition isNaN (x : spec_float) : bool :=
  match x with S754_nan => true | _ => false end.

(** The double is a number: not NaN. *)
Definition isNumber (a : float) : bool := negb (isNaN (Prim2SF a)).

(** The double is zero or a finite number. *)
Definition isFinite (a : float) : bool :=
  match Prim2SF a with
  | S754_zero _ | S754_finite _ _ _ => true
  | _ => false
  end.

(** The integer a finite number stands for, at the exponent [ez]. *)
Definition aligned (s : bool) (m : positive) (e ez : Z) : Z :=
  cond_Zopp s (Zpos (fst (shl_align m e ez))).

(** A finite number or an infinity of sign [sx]. *)
Definition signed (sx : bool) (r : spec_float) : Prop :=
  match r with
  | S754_finite s _ _ | S754_infinity s => s = sx
  | _ => False
  end.

(** The same, or a zero of that sign. *)
Definition signedOrZero (sx : bool) (r : spec_float) : Prop :=
  match r with
  | S754_finite s _ _ | S754_infinity s | S754_zero s => s = sx
  | S754_nan => False
  end.

(** Zero, a positive number or the positive infinity. *)
Definition nonNegative (a : float) : Prop := signedOrZero false (Prim2SF a).

(** An order-preserving numbering of the doubles that are numbers. *)
Definition ordSF (x : spec_float) : Z :=
  match x with
  | S754_zero _ | S754_nan => 0
  | S754_infinity s => cond_Zopp s (2 ^ 70)
  | S754_finite s m e => cond_Zopp s ((e + 1075) * 2 ^ 53 + Zpos m)
  end.

Definition ord (a : float) : Z := ordSF (Prim2SF a).

(** The rational a finite double stands for. *)
Definition exact (a : float) : Q :=
  match Prim2SF a with
  | S754_finite s m e => inject_Z (cond_Zopp s (Zpos m)) * Qpower 2 e
  | _ => 0
  end.

End Double.

(** *** Distances, as the statements measure them *)

(** The square of the Euclidean distance between two corners, exactly. *)
Definition euclideanSquared (p q : DOMRect) : Q :=
  (Double.exact (rect_x p) - Double.exact (rect_x q)) ^ 2
  + (Double.exact (rect_y p) - Double.exact (rect_y q)) ^ 2.

(** The Euclidean distance between two corners. *)
Definition euclideanDistance (p q : DOMRect) : R := R_sqrt.sqrt (Q2R (euclideanSquared p q)).

(** The Euclidean distance in double arithmetic: every difference,
    product, sum and the square root rounded to the nearest double. *)
Definition roundedDistance (p q : DOMRect) : float :=
  let dx := (rect_x p - rect_x q)%float in
  let dy := (rect_y p - rect_y q)%float in
  PrimFloat.sqrt (dx * dx + dy * dy)%float.

Definition roundedDistanceTo (img n : Node) : float :=
  roundedDistance (getBoundingClientRect (node_elem img))
                  (getBoundingClientRect (node_elem n)).

(** The corner of the node has finite coordinates. *)
Definition finiteCorner (n : Node) : bool :=
  Double.isFinite (rect_x (getBoundingClientRect (node_elem n)))
  && Double.isFinite (rect_y (getBoundingClientRect (node_elem n))).

(** [x] is the element of [inputs] at index [i], no element of [inputs]
    has a smaller rounded distance to the image, and every element before
    index [i] has a larger one. *)
Definition nearestFirstRounded (img : Node) (inputs : list Node) (i : nat) (x : Node)
  : Prop :=
  nth_error inputs i = Some x
  /\ (forall j y, nth_error inputs j = Some y ->
                  (roundedDistanceTo img y <? roundedDistanceTo img x)%float = false)
  /\ (forall j y, (j < i)%nat -> nth_error inputs j = Some y ->
                  (roundedDistanceTo img x <? roundedDistanceTo img y)%float = true).

(** The place of a node's rounded distance among the doubles. *)
Definition keyOf (img n : Node) : Z := Double.ord (roundedDistanceTo img n).


(** The record of [target.dispatchEvent(new Event(type, { bubbles: true }))]. *)
Definition eventOn (target : Node) (type : string) : Dispatched :=
  {| event_target := node_path target; event_type := type; event_bubbles := true |}.

(** Between two worlds no element value was written and no event was
    dispatched. *)
Definition pageUntouched (w w' : World) : Prop :=
  inputValue w' = inputValue w /\ dispatched w' = dispatched w.

(** The world after the value [stored] is written and the two events are
    dispatched. *)
Definition filled (w : World) (target : Node) (stored : string) : World :=
  {| inputValue := <[node_path target := stored]> (inputValue w);
     dispatched := dispatched w ++ [eventOn target "input"; eventOn target "change"];
     domQueries := domQueries w;
     network := network w |}.

(** [a] is [n] or an ancestor of [n] in [d]: its path leads to it and is a
    prefix of that of [n]. *)
Definition encloses (d : Document) (a n : Node) : Prop :=
  (exists q, node_path n = node_path a ++ q)
  /\ elementAt (documentElement d) (node_path a) = Some (node_elem a).

Definition isForm (n : Node) : Prop := tagName (node_elem n) = "form".

(** [form] is a form enclosing [img], and the deepest such. *)
Definition nearestEnclosingForm (d : Document) (img form : Node) : Prop :=
  encloses d form img
  /\ isForm form
  /\ forall g, encloses d g img -> isForm g ->
               (length (node_path g) <= length (node_path form))%nat.

Definition noEnclosingForm (d : Document) (img : Node) : Prop :=
  forall g, encloses d g img -> ~ isForm g.

(** The subtrees of the children [cs], the first of them being child [i]. *)
Definition subtrees (p : Path) : nat -> list Element -> list Node :=
  fix each (i : nat) (cs : list Element) : list Node :=
    match cs with
    | [] => []
    | c :: cs' => subtree (p ++ [i]) c ++ each (S i) cs'
    end.

(** Induction on elements, with the hypothesis for every child. *)
Section ElementInduction.
Variable P : Element -> Prop.
Hypothesis step : forall t a r cs, Forall P cs -> P (El t a r cs).

Fixpoint Element_induction (e : Element) : P e :=
  match e with
  | El t a r cs =>
      step t a r cs
        ((fix all (l : list Element) : Forall P l :=
            match l with
            | [] => List.Forall_nil P
            | c :: l' => List.Forall_cons P c l' (Element_induction c) (all l')
            end) cs)
  end.
End ElementInduction.

(** ** Sample pages and hosts *)

Module Sample.

Definition at_ (x y : float) : DOMRect := {| rect_x := x; rect_y := y |}.
Arguments at_ (x y)%_float.

Definition html (head body : list Element) : Document :=
  {| documentElement :=
       El "html" [] origin [El "head" [] origin head; El "body" [] origin body] |}.

(** A login form: the captcha image and four inputs, two of them at the
    same distance from the image. *)
Definition page : Document :=
  html []
    [ El "div" [] (at_ 0 0) [];
      El "form" [] (at_ 0 0)
        [ El "img" [("src", "/captcha.png")] (at_ 10 10) [];
          El "input" [("name", "captcha_far")] (at_ 100 100) [];
          El "input" [("name", "captcha_below")] (at_ 10 40) [];
          El "input" [("name", "captcha_right")] (at_ 40 10) [];
          El "input" [("type", "text"); ("maxlength", "6")] (at_ 10 11) [] ] ].

(** Its captcha image, as the detector refers to it. *)
Definition captchaImg : Node :=
  {| node_path := [1; 1; 0]%nat;
     node_elem := El "img" [("src", "/captcha.png")] (at_ 10 10) [] |}.

(** Its form. *)
Definition loginForm : Node :=
  {| node_path := [1; 1]%nat;
     node_elem :=
       El "form" [] (at_ 0 0)
         [ El "img" [("src", "/captcha.png")] (at_ 10 10) [];
           El "input" [("name", "captcha_far")] (at_ 100 100) [];
           El "input" [("name", "captcha_below")] (at_ 10 40) [];
           El "input" [("name", "captcha_right")] (at_ 40 10) [];
           El "input" [("type", "text"); ("maxlength", "6")] (at_ 10 11) [] ] |}.

(** The input below the image. *)
Definition inputBelow : Node :=
  {| node_path := [1; 1; 2]%nat;
     node_elem := El "input" [("name", "captcha_below")] (at_ 10 40) [] |}.

(** A page without any image. *)
Definition plainPage : Document :=
  html [] [ El "input" [("id", "captcha")] (at_ 0 0) [] ].

Definition plainBody : Node :=
  {| node_path := [1]%nat;
     node_elem := El "body" [] origin [ El "input" [("id", "captcha")] (at_ 0 0) [] ] |}.

Definition noBlob : Completion Blob := Throw (JsError "TypeError" "Failed to fetch").

Definition respond (st : Z) (text : string) (json : Completion Value) : Response :=
  {| status := st; statusText := text; response_json := json; response_blob := noBlob |}.

(** How an integer below 10^21 prints: its decimal digits.  The samples
    print no other number. *)
Definition printInteger (n : float) : string :=
  match Prim2SF n with
  | S754_zero _ => "0"
  | S754_finite s m e =>
      let z := if 0 <=? e then Zpos m * 2 ^ e else Zpos m / 2 ^ (- e) in
      if ((0 <=? e) || (Zpos m mod 2 ^ (- e) =? 0)) && (z <? 10 ^ 21)
      then NilZero.string_of_int (Z.to_int (cond_Zopp s z))
      else "NaN"
  | S754_infinity false => "Infinity"
  | S754_infinity true => "-Infinity"
  | S754_nan => "NaN"
  end.

(** The sample pages are served from [https://shop.example/]. *)
Definition resolve (u : string) : string :=
  if String.prefix "/" u then "https://shop.example" +:+ u else u.

(** A host put together from what varies between the samples.  The
    sample pages hold text fields and a file upload; an input of another
    type would keep the value as it is. *)
Definition browser (config : option CaptchaSolverConfig)
    (network_ : Request -> Completion Response) (context : bool)
    (draw : Path -> option Thrown) (toDataURL : Path -> Completion string)
    (reader : Blob -> Completion string) : Host :=
  {| storage_captchaSolverConfig := config;
     host_fetch := network_;
     canvas_getContext := context;
     canvas_drawImage := draw;
     canvas_toDataURL := toDataURL;
     reader_readAsDataURL := reader;
     number_toString := printInteger;
     url_resolve := resolve;
     input_sanitize := fun _ _ s => s |}.

(** A host whose canvas works and whose network answers every request
    with [r]. *)
Definition answering (config : option CaptchaSolverConfig) (r : Response) : Host :=
  browser config (fun _ => Normal r) true (fun _ => None)
    (fun _ => Normal "data:image/png;base64,iVBORw0KGgo=")
    (fun _ => Throw (EventObject "error")).

Definition solved : Host :=
  answering None (respond 200 "OK" (Normal (VObj [("data", VStr "AB12")]))).

Definition emptyData : Host :=
  answering None (respond 200 "OK" (Normal (VObj [("data", VStr "")]))).

Definition noData : Host :=
  answering None (respond 200 "OK" (Normal (VObj []))).

Definition badImage : Host :=
  answering None (respond 500 "Internal Server Error"
                    (Normal (VObj [("message", VStr "bad image")]))).

Definition unconfigured : Host :=
  answering (Some {| apiUrl := ""; apiKey := "secret" |})
            (respond 200 "OK" (Normal (VObj [("data", VStr "AB12")]))).

Definition notFoundPage : Blob := {| blob_type := "text/html"; blob_bytes := "<h1>404</h1>" |}.

(** A host whose canvas is tainted and whose server answers the image
    request with a 404 page. *)
Definition taintedMissing : Host :=
  browser None
    (fun _ =>
       Normal {| status := 404; statusText := "Not Found";
                 response_json := Throw (JsError "SyntaxError" "Unexpected token <");
                 response_blob := Normal notFoundPage |})
    true (fun _ => None)
    (fun _ => Throw (JsError "SecurityError" "Tainted canvases may not be exported."))
    (fun b => Normal ("data:" +:+ blob_type b +:+ ";base64,PGgxPjQwNDwvaDE+")).

(** Two inputs a hundred million units to the right of the image, the
    first one unit lower than the second. *)
Definition farPage : Document :=
  html []
    [ El "img" [("src", "/captcha.png")] (at_ 0 0) [];
      El "input" [("name", "captcha_a")] (at_ 100000000 1) [];
      El "input" [("name", "captcha_b")] (at_ 100000000 0) [] ].

Definition farImg : Node :=
  {| node_path := [1; 0]%nat;
     node_elem := El "img" [("src", "/captcha.png")] (at_ 0 0) [] |}.

Definition farA : Node :=
  {| node_path := [1; 1]%nat;
     node_elem := El "input" [("name", "captcha_a")] (at_ 100000000 1) [] |}.

Definition farB : Node :=
  {| node_path := [1; 2]%nat;
     node_elem := El "input" [("name", "captcha_b")] (at_ 100000000 0) [] |}.

Definition farBody : Node :=
  {| node_path := [1]%nat;
     node_elem :=
       El "body" [] origin
         [ El "img" [("src", "/captcha.png")] (at_ 0 0) [];
           El "input" [("name", "captcha_a")] (at_ 100000000 1) [];
           El "input" [("name", "captcha_b")] (at_ 100000000 0) [] ] |}.

(** A page whose only input near the captcha is a file upload. *)
Definition uploadPage : Document :=
  html []
    [ El "img" [("src", "/captcha.png")] (at_ 10 10) [];
      El "input" [("type", "file"); ("name", "captcha_upload")] (at_ 10 40) [] ].

Definition uploadInput : Node :=
  {| node_path := [1; 1]%nat;
     node_elem := El "input" [("type", "file"); ("name", "captcha_upload")]
                    (at_ 10 40) [] |}.

Definition uploadBody : Node :=
  {| node_path := [1]%nat;
     node_elem :=
       El "body" [] origin
         [ El "img" [("src", "/captcha.png")] (at_ 10 10) [];
           El "input" [("type", "file"); ("name", "captcha_upload")] (at_ 10 40) [] ] |}.

Definition uploadImg : Node :=
  {| node_path := [1; 0]%nat;
     node_elem := El "img" [("src", "/captcha.png")] (at_ 10 10) [] |}.

(** A document whose [html] element holds a [head] and an image, and no
    [body]. *)
Definition bodiless : Document :=
  {| documentElement :=
       El "html" [] origin
         [ El "head" [] origin [];
           El "img" [("alt", "captcha")] (at_ 5 5) [] ] |}.

Definition bodilessImg : Node :=
  {| node_path := [1]%nat;
     node_elem := El "img" [("alt", "captcha")] (at_ 5 5) [] |}.

(** A text input whose [type] is written in capitals. *)
Definition capitalsPage : Document :=
  html []
    [ El "img" [("src", "/captcha.png")] (at_ 10 10) [];
      El "input" [("type", "TEXT"); ("maxlength", "6")] (at_ 10 40) [] ].

Definition capitalsImg : Node :=
  {| node_path := [1; 0]%nat;
     node_elem := El "img" [("src", "/captcha.png")] (at_ 10 10) [] |}.

Definition capitalsInput : Node :=
  {| node_path := [1; 1]%nat;
     node_elem := El "input" [("type", "TEXT"); ("maxlength", "6")] (at_ 10 40) [] |}.

End Sample.

(** ** The rest of the scripts *)

(** [chrome.storage.sync.set({ captchaSolverConfig: config })]: the host
    with the record stored. *)
Definition storage_set (config : CaptchaSolverConfig) (h : Host) : Host :=
  {| storage_captchaSolverConfig := Some config;
     host_fetch := host_fetch h;
     canvas_getContext := canvas_getContext h;
     canvas_drawImage := canvas_drawImage h;
     canvas_toDataURL := canvas_toDataURL h;
     reader_readAsDataURL := reader_readAsDataURL h;
     number_toString := number_toString h;
     url_resolve := url_resolve h;
     input_sanitize := input_sanitize h |}.

(** js/captchaSolverApi.js, [saveSolverConfig] *)
Definition saveSolverConfig (config : CaptchaSolverConfig) (h : Host) : Host :=
  storage_set config h.

(** content.js, the [onMessage] listener of the content script, seen from
    the sender as the background listener is. *)
Definition content_onMessage (h : Host) (d : Document)
    (sendMessage : Value -> M Value) (request : Value) : M Value :=
  action <- lift (Get request "action") ;;
  if strict_eq_string action "findAndSolveCaptcha" then
    runCaptchaBreaker h d sendMessage ;;;
    ret (VObj [("status", VStr "completed")])
  else
    ret VUndefined.

(** js/popup.js: the two text fields of the settings form. *)
Record PopupForm : Type := { apiUrlInput : string; apiKeyInput : string }.

(** [loadConfig]: what the fields are set to when the popup opens. *)
Definition loadConfig (h : Host) : PopupForm :=
  let config :=
    match storage_captchaSolverConfig h with
    | Some stored => stored
    | None => {| apiUrl := "http://localhost:8000/ocr"; apiKey := "" |}
    end in
  {| apiUrlInput := apiUrl config; apiKeyInput := apiKey config |}.

Section PopupSubmit.
(** [String.prototype.trim] *)
Variable trim : string -> string.

(** The [submit] listener of the settings form: the host after the
    trimmed fields are stored. *)
Definition submitSettings (form : PopupForm) (h : Host) : Host :=
  let newConfig := {| apiUrl := trim (apiUrlInput form);
                      apiKey := trim (apiKeyInput form) |} in
  storage_set newConfig h.
End PopupSubmit.

(** ** Vocabulary of the further statements *)

(** The selector [s] is one of [sels] and matches [n]. *)
Definition matchesOneOf (sels : list Selector) (n : Node) : Prop :=
  exists s, In s sels /\ nodeMatches s n = true.

(** [n] lies strictly below [scope], at the path it carries. *)
Definition strictlyBelow (scope n : Node) : Prop :=
  exists q, q <> [] /\ node_path n = node_path scope ++ q
            /\ elementAt (node_elem scope) q = Some (node_elem n).

Module Scenario.

(** A page whose captcha image has no input near it. *)
Definition imageOnly : Document :=
  Sample.html []
    [ El "img" [("alt", "captcha")] (Sample.at_ 5 5) [];
      El "input" [("type", "password")] (Sample.at_ 5 30) [] ].

Definition imageOnlyImg : Node :=
  {| node_path := [1; 0]%nat;
     node_elem := El "img" [("alt", "captcha")] (Sample.at_ 5 5) [] |}.

(** The [body] of that page. *)
Definition imageOnlyBody : Node :=
  {| node_path := [1]%nat;
     node_elem :=
       El "body" [] origin
         [ El "img" [("alt", "captcha")] (Sample.at_ 5 5) [];
           El "input" [("type", "password")] (Sample.at_ 5 30) [] ] |}.

(** A host without a 2D context. *)
Definition noContext : Host :=
  Sample.browser None (fun _ => Throw (JsError "TypeError" "Failed to fetch"))
    false (fun _ => None) (fun _ => Normal "data:image/png;base64,AAAA")
    (fun _ => Throw (EventObject "error")).

(** A host whose canvas works and whose network is down. *)
Definition offline : Host :=
  Sample.browser (Some {| apiUrl := "https://ocr.example/solve"; apiKey := "k-123" |})
    (fun _ => Throw (JsError "TypeError" "Failed to fetch"))
    true (fun _ => None) (fun _ => Normal "data:image/png;base64,AAAA")
    (fun _ => Throw (EventObject "error")).

Definition htmlAnswer : Host :=
  Sample.answering None
    (Sample.respond 200 "OK" (Throw (JsError "SyntaxError" "Unexpected token <"))).

Definition emptyError : Host :=
  Sample.answering None (Sample.respond 503 "Service Unavailable" (Normal (VObj []))).

Definition nullError : Host :=
  Sample.answering None (Sample.respond 500 "Internal Server Error" (Normal VNull)).

(** A stand-in for [trim] on the sample form: blanks at the front go. *)
Fixpoint dropBlanks (s : string) : string :=
  match s with
  | String " "%char s' => dropBlanks s'
  | _ => s
  end.

Definition blankForm : PopupForm := {| apiUrlInput := "   "; apiKeyInput := " key" |}.

Definition filledForm : PopupForm :=
  {| apiUrlInput := " https://ocr.example/solve"; apiKeyInput := "" |}.

End Scenario.

(** * Properties *)

(** Closes [pageUntouched] goals between worlds that differ in their
    logs only. *)
Ltac untouched := solve [split; reflexivity].

(** ** Doubles *)

Module DoubleFacts.
Import Double.

Lemma digits2_bounds (m : positive) :
  2 ^ (Zpos (digits2_pos m) - 1) <= Zpos m < 2 ^ Zpos (digits2_pos m).
Proof.
  induction m as [m IH|m IH|]; cbn [digits2_pos].
  - rewrite Pos2Z.inj_succ.
    replace (Z.succ (Zpos (digits2_pos m)) - 1) with (Z.succ (Zpos (digits2_pos m) - 1)) by lia.
    rewrite !Z.pow_succ_r by lia. lia.
  - rewrite Pos2Z.inj_succ.
    replace (Z.succ (Zpos (digits2_pos m)) - 1) with (Z.succ (Zpos (digits2_pos m) - 1)) by lia.
    rewrite !Z.pow_succ_r by lia. lia.
  - simpl. lia.
Qed.

Lemma bounded_inv (m : positive) (e : Z) :
  bounded prec emax m e = true ->
  Zpos (digits2_pos m) <= 53
  /\ -1074 <= e <= 971
  /\ (-1074 < e -> Zpos (digits2_pos m) = 53).
Proof.
  unfold bounded, canonical_mantissa, fexp, SpecFloat.emin, prec, emax.
  intros H. apply andb_prop in H. destruct H as [H1 H2].
  apply Z.eqb_eq in H1. apply Z.leb_le in H2. lia.
Qed.

Lemma mantissa_bounds (m : positive) (e : Z) :
  bounded prec emax m e = true ->
  0 < Zpos m < 2 ^ 53 /\ (-1074 < e -> 2 ^ 52 <= Zpos m).
Proof.
  intros H. destruct (bounded_inv m e H) as (Hd & He & Hn).
  pose proof (digits2_bounds m) as [Hlo Hhi].
  split; [split; [lia|]|].
  - eapply Z.lt_le_trans; [exact Hhi|]. apply Z.pow_le_mono_r; lia.
  - intros Hlt. rewrite (Hn Hlt) in Hlo. exact Hlo.
Qed.

Lemma iter_xO (d m : positive) : Zpos (Pos.iter xO m d) = Zpos m * 2 ^ Zpos d.
Proof.
  induction d as [|d IH] using Pos.peano_ind.
  - simpl. lia.
  - rewrite Pos.iter_succ, Pos2Z.inj_xO, IH, Pos2Z.inj_succ, Z.pow_succ_r by lia. lia.
Qed.

Lemma shl_align_value (m : positive) (e e' : Z) :
  e' <= e ->
  Zpos (fst (shl_align m e e')) = Zpos m * 2 ^ (e - e')
  /\ snd (shl_align m e e') = e'.
Proof.
  intros Hle. unfold shl_align.
  destruct (e' - e) as [|p|p] eqn:Hd; cbn [fst snd].
  - replace (e - e') with 0 by lia. simpl. lia.
  - lia.
  - rewrite iter_xO. replace (e - e') with (Zpos p) by lia. auto.
Qed.

Lemma aligned_value (s : bool) (m : positive) (e ez : Z) :
  ez <= e -> aligned s m e ez = cond_Zopp s (Zpos m * 2 ^ (e - ez)).
Proof.
  intros H. unfold aligned. rewrite (proj1 (shl_align_value m e ez H)). reflexivity.
Qed.

Lemma SFcompare_finite (s1 s2 : bool) (m1 m2 : positive) (e1 e2 : Z) :
  bounded prec emax m1 e1 = true ->
  bounded prec emax m2 e2 = true ->
  SFcompare (S754_finite s1 m1 e1) (S754_finite s2 m2 e2)
  = Some (Z.compare (aligned s1 m1 e1 (Z.min e1 e2)) (aligned s2 m2 e2 (Z.min e1 e2))).
Proof.
  intros B1 B2.
  destruct (mantissa_bounds m1 e1 B1) as [[P1 U1] N1].
  destruct (mantissa_bounds m2 e2 B2) as [[P2 U2] N2].
  destruct (bounded_inv m1 e1 B1) as (_ & E1 & _).
  destruct (bounded_inv m2 e2 B2) as (_ & E2 & _).
  rewrite !aligned_value by lia.
  assert (forall a b, a < b -> 2 * 2 ^ 52 <= 2 ^ (b - a) * 2 ^ 52) as Hpow.
  { intros a b Hab. apply Z.mul_le_mono_nonneg_r; [lia|].
    change 2 with (2 ^ 1) at 1. apply Z.pow_le_mono_r; lia. }
  assert (2 * 2 ^ 52 = 2 ^ 53) as H53 by reflexivity.
  cbn [SFcompare]. f_equal.
  destruct (Z.compare_spec e1 e2) as [He|He|He].
  - subst e2. rewrite Z.min_id, Z.sub_diag, !Z.mul_1_r.
    change (Pos.compare_cont Eq m1 m2) with (Z.compare (Zpos m1) (Zpos m2)).
    destruct s1, s2; reflexivity.
  - rewrite Z.min_l by lia. rewrite Z.sub_diag, Z.mul_1_r.
    specialize (N2 ltac:(lia)). specialize (Hpow e1 e2 He).
    assert (Zpos m1 < Zpos m2 * 2 ^ (e2 - e1)) by nia.
    destruct s1, s2; cbn [cond_Zopp]; symmetry.
    + apply Z.compare_gt_iff. lia.
    + apply Z.compare_lt_iff. lia.
    + apply Z.compare_gt_iff. lia.
    + apply Z.compare_lt_iff. lia.
  - rewrite Z.min_r by lia. rewrite Z.sub_diag, Z.mul_1_r.
    specialize (N1 ltac:(lia)). specialize (Hpow e2 e1 He).
    assert (Zpos m2 < Zpos m1 * 2 ^ (e1 - e2)) by nia.
    destruct s1, s2; cbn [cond_Zopp]; symmetry.
    + apply Z.compare_lt_iff. lia.
    + apply Z.compare_lt_iff. lia.
    + apply Z.compare_gt_iff. lia.
    + apply Z.compare_gt_iff. lia.
Qed.

(** Rounding keeps the sign. *)

Lemma shr_1_m (mrs : shr_record) :
  0 <= shr_m mrs -> shr_m (shr_1 mrs) = shr_m mrs / 2.
Proof.
  destruct mrs as [m r s]. cbn [shr_m]. intros Hm.
  rewrite <- Z.div2_div.
  destruct m as [|[p|p|]|p]; try reflexivity. lia.
Qed.

Lemma pow2_xO (p : positive) : 2 ^ Zpos p~0 = 2 ^ Zpos p * 2 ^ Zpos p.
Proof.
  replace (Zpos p~0) with (Zpos p + Zpos p) by lia.
  apply Z.pow_add_r; lia.
Qed.

Lemma pow2_xI (p : positive) : 2 ^ Zpos p~1 = 2 * (2 ^ Zpos p * 2 ^ Zpos p).
Proof.
  replace (Zpos p~1) with (Z.succ (Zpos p + Zpos p)) by lia.
  rewrite Z.pow_succ_r by lia. f_equal. apply Z.pow_add_r; lia.
Qed.

Lemma iter_shr_m (p : positive) :
  forall mrs, 0 <= shr_m mrs ->
    shr_m (SpecFloat.iter_pos shr_1 p mrs) = shr_m mrs / 2 ^ Zpos p.
Proof.
  induction p as [p IH|p IH|]; intros mrs Hm; cbn [SpecFloat.iter_pos].
  - assert (0 <= shr_m (shr_1 mrs)) as H1
        by (rewrite shr_1_m by exact Hm; apply Z.div_pos; lia).
    assert (0 <= shr_m (SpecFloat.iter_pos shr_1 p (shr_1 mrs))) as H2
        by (rewrite IH by exact H1; apply Z.div_pos; [exact H1 | lia]).
    rewrite IH, IH, shr_1_m by assumption.
    assert (0 < 2 ^ Zpos p) by (apply Z.pow_pos_nonneg; lia).
    rewrite !Z.div_div by lia. rewrite pow2_xI. f_equal; ring.
  - assert (0 <= shr_m (SpecFloat.iter_pos shr_1 p mrs)) as H2
        by (rewrite IH by exact Hm; apply Z.div_pos; [exact Hm | lia]).
    rewrite IH, IH by assumption.
    assert (0 < 2 ^ Zpos p) by (apply Z.pow_pos_nonneg; lia).
    rewrite !Z.div_div by lia. rewrite pow2_xO. f_equal; ring.
  - rewrite shr_1_m by exact Hm. reflexivity.
Qed.

Lemma shr_record_of_loc_m (m : Z) (l : location) : shr_m (shr_record_of_loc m l) = m.
Proof. destruct l as [|[]]; reflexivity. Qed.

Lemma shr_fexp_nonneg (m e : Z) (l : location) :
  0 <= m -> 0 <= shr_m (fst (shr_fexp prec emax m e l)).
Proof.
  intros Hm. unfold shr_fexp, shr.
  destruct (fexp prec emax (Zdigits2 m + e) - e) as [|p|p]; cbn [fst];
    rewrite ?iter_shr_m, shr_record_of_loc_m; rewrite ?shr_record_of_loc_m; try lia.
  apply Z.div_pos; lia.
Qed.

Lemma shr_fexp_pos (m e : Z) (l : location) :
  0 < m -> -1074 <= e ->
  0 < shr_m (fst (shr_fexp prec emax m e l))
  /\ -1074 <= snd (shr_fexp prec emax m e l).
Proof.
  intros Hm He. destruct m as [|m|m]; try lia.
  pose proof (digits2_bounds m) as [Hlo Hhi].
  unfold shr_fexp, shr. cbn [Zdigits2].
  destruct (fexp prec emax (Zpos (digits2_pos m) + e) - e) as [|p|p] eqn:Hn; cbn [fst snd];
    rewrite ?shr_record_of_loc_m; try lia.
  rewrite iter_shr_m by (rewrite shr_record_of_loc_m; lia).
  rewrite shr_record_of_loc_m.
  unfold fexp, SpecFloat.emin, prec, emax in Hn.
  split; [|lia].
  apply Z.div_str_pos. split; [lia|].
  eapply Z.le_trans; [|exact Hlo]. apply Z.pow_le_mono_r; lia.
Qed.

Lemma round_nearest_even_pos (q : Z) (l : location) :
  0 < q -> 0 < round_nearest_even q l.
Proof. intros Hq. destruct l as [|[]]; simpl; try destruct (Z.even q); lia. Qed.

Lemma round_nearest_even_nonneg (q : Z) (l : location) :
  0 <= q -> 0 <= round_nearest_even q l.
Proof. intros Hq. destruct l as [|[]]; simpl; try destruct (Z.even q); lia. Qed.

Lemma binary_round_aux_signed (sx : bool) (m e : Z) (l : location) :
  0 < m -> -1074 <= e -> signed sx (binary_round_aux prec emax sx m e l).
Proof.
  intros Hm He. unfold binary_round_aux.
  pose proof (shr_fexp_pos m e l Hm He) as [H1 H1'].
  destruct (shr_fexp prec emax m e l) as [mrs' e']. cbn [fst snd] in H1, H1'.
  pose proof (round_nearest_even_pos _ (loc_of_shr_record mrs') H1) as H2.
  pose proof (shr_fexp_pos _ e' loc_Exact H2 H1') as [H3 _].
  destruct (shr_fexp prec emax _ e' loc_Exact) as [mrs'' e'']. cbn [fst] in H3.
  destruct (shr_m mrs'') as [|q|q]; try lia.
  destruct (e'' <=? emax - prec); reflexivity.
Qed.

Lemma binary_round_aux_signedOrZero (sx : bool) (m e : Z) (l : location) :
  0 <= m -> signedOrZero sx (binary_round_aux prec emax sx m e l).
Proof.
  intros Hm. unfold binary_round_aux.
  pose proof (shr_fexp_nonneg m e l Hm) as H1.
  destruct (shr_fexp prec emax m e l) as [mrs' e']. cbn [fst] in H1.
  pose proof (round_nearest_even_nonneg _ (loc_of_shr_record mrs') H1) as H2.
  pose proof (shr_fexp_nonneg _ e' loc_Exact H2) as H3.
  destruct (shr_fexp prec emax _ e' loc_Exact) as [mrs'' e'']. cbn [fst] in H3.
  destruct (shr_m mrs'') as [|q|q]; try lia; [reflexivity|].
  destruct (e'' <=? emax - prec); reflexivity.
Qed.

Lemma binary_round_signed (sx : bool) (m : positive) (e : Z) :
  -1074 <= e -> signed sx (binary_round prec emax sx m e).
Proof.
  intros He. unfold binary_round.
  destruct (shl_align m e (fexp prec emax (Zpos (digits2_pos m) + e))) as [mz ez] eqn:Hs.
  apply binary_round_aux_signed; [lia|].
  unfold shl_align in Hs.
  destruct (fexp prec emax (Zpos (digits2_pos m) + e) - e) eqn:Hd;
    injection Hs as _ <-; try lia.
  unfold fexp, SpecFloat.emin, prec, emax. lia.
Qed.

Lemma binary_normalize_sign (d e : Z) :
  -1074 <= e ->
  match Z.compare d 0 with
  | Eq => binary_normalize prec emax d e false = S754_zero false
  | Lt => signed true (binary_normalize prec emax d e false)
  | Gt => signed false (binary_normalize prec emax d e false)
  end.
Proof.
  intros He. destruct d as [|p|p]; cbn [Z.compare binary_normalize].
  - reflexivity.
  - apply binary_round_signed, He.
  - apply binary_round_signed, He.
Qed.

(** The sign of a difference. *)

Lemma signed_ltb (sx : bool) (r : spec_float) :
  signed sx r ->
  SFltb r (S754_zero false) = sx /\ SFltb (S754_zero false) r = negb sx.
Proof. destruct r as [s|s| |s m e]; cbn [signed]; try tauto; intros <-; destruct s; auto. Qed.

Lemma SFsub_sign (x y : spec_float) :
  valid_binary x = true -> valid_binary y = true ->
  SFltb (SF64sub x y) (S754_zero false) = SFltb x y
  /\ SFltb (S754_zero false) (SF64sub x y) = SFltb y x.
Proof.
  intros Vx Vy.
  destruct x as [sx|sx| |sx mx ex], y as [sy|sy| |sy my ey];
    try (destruct sx; try destruct sy; split; reflexivity);
    try (destruct sy; split; reflexivity);
    try (split; reflexivity).
  cbn [valid_binary SpecFloat.valid_binary] in Vx, Vy.
  destruct (bounded_inv mx ex Vx) as (_ & Ex & _).
  destruct (bounded_inv my ey Vy) as (_ & Ey & _).
  unfold SFltb. rewrite (SFcompare_finite sx sy mx my ex ey Vx Vy).
  rewrite (SFcompare_finite sy sx my mx ey ex Vy Vx), (Z.min_comm ey ex).
  unfold SF64sub, SFsub. cbv zeta. fold (aligned sx mx ex (Z.min ex ey)).
  fold (aligned sy my ey (Z.min ex ey)).
  set (a := aligned sx mx ex (Z.min ex ey)). set (b := aligned sy my ey (Z.min ex ey)).
  pose proof (binary_normalize_sign (a - b) (Z.min ex ey) ltac:(lia)) as Hn.
  fold (SFltb (binary_normalize prec emax (a - b) (Z.min ex ey) false) (S754_zero false)).
  fold (SFltb (S754_zero false) (binary_normalize prec emax (a - b) (Z.min ex ey) false)).
  rewrite (Z.compare_antisym a b), (Z.compare_sub a b).
  destruct (Z.compare (a - b) 0); cbn [CompOpp].
  - rewrite Hn. split; reflexivity.
  - destruct (signed_ltb _ _ Hn) as [-> ->]. split; reflexivity.
  - destruct (signed_ltb _ _ Hn) as [-> ->]. split; reflexivity.
Qed.

Lemma Prim2SF_zero : Prim2SF 0%float = S754_zero false.
Proof. reflexivity. Qed.

(** [a - b < 0] is [a < b], and [0 < a - b] is [b < a], for all doubles. *)
Theorem sub_ltb (a b : float) :
  ((a - b <? 0) = (a <? b))%float /\ ((0 <? a - b) = (b <? a))%float.
Proof.
  rewrite !ltb_spec, sub_spec, Prim2SF_zero.
  apply SFsub_sign; apply Prim2SF_valid.
Qed.

Lemma ordSF_finite_bounds (m : positive) (e : Z) :
  bounded prec emax m e = true -> 0 < (e + 1075) * 2 ^ 53 + Zpos m < 2 ^ 70.
Proof.
  intros B. destruct (mantissa_bounds m e B) as [[P U] _].
  destruct (bounded_inv m e B) as (_ & E & _).
  change (2 ^ 70) with (131072 * 2 ^ 53). nia.
Qed.

Lemma SFcompare_ord_finite (sx sy : bool) (mx my : positive) (ex ey : Z) :
  bounded prec emax mx ex = true -> bounded prec emax my ey = true ->
  SFcompare (S754_finite sx mx ex) (S754_finite sy my ey)
  = Some (Z.compare (ordSF (S754_finite sx mx ex)) (ordSF (S754_finite sy my ey))).
Proof.
  intros Vx Vy. cbn [ordSF SFcompare]. f_equal. symmetry.
  pose proof (ordSF_finite_bounds mx ex Vx) as Hx.
  pose proof (ordSF_finite_bounds my ey Vy) as Hy.
  destruct (mantissa_bounds mx ex Vx) as [[Px Ux] _].
  destruct (mantissa_bounds my ey Vy) as [[Py Uy] _].
  assert (forall e1 e2 m1 m2, e1 < e2 -> 0 < m1 < 2 ^ 53 -> 0 < m2 ->
            (e1 + 1075) * 2 ^ 53 + m1 < (e2 + 1075) * 2 ^ 53 + m2) as Hlex
      by (intros; nia).
  change (Pos.compare_cont Eq mx my) with (Z.compare (Zpos mx) (Zpos my)).
  destruct sx, sy; cbn [cond_Zopp].
  - destruct (Z.compare_spec ex ey) as [->|L|G].
    + destruct (Z.compare_spec (Zpos mx) (Zpos my)) as [E|L|G]; cbn [CompOpp];
        [apply Z.compare_eq_iff | apply Z.compare_gt_iff | apply Z.compare_lt_iff]; lia.
    + apply Z.compare_gt_iff. specialize (Hlex ex ey (Zpos mx) (Zpos my)). lia.
    + apply Z.compare_lt_iff. specialize (Hlex ey ex (Zpos my) (Zpos mx)). lia.
  - apply Z.compare_lt_iff. lia.
  - apply Z.compare_gt_iff. lia.
  - destruct (Z.compare_spec ex ey) as [->|L|G].
    + destruct (Z.compare_spec (Zpos mx) (Zpos my)) as [E|L|G];
        [apply Z.compare_eq_iff | apply Z.compare_lt_iff | apply Z.compare_gt_iff]; lia.
    + apply Z.compare_lt_iff. specialize (Hlex ex ey (Zpos mx) (Zpos my)). lia.
    + apply Z.compare_gt_iff. specialize (Hlex ey ex (Zpos my) (Zpos mx)). lia.
Qed.

Lemma SFcompare_ord (x y : spec_float) :
  valid_binary x = true -> valid_binary y = true ->
  isNaN x = false -> isNaN y = false ->
  SFcompare x y = Some (Z.compare (ordSF x) (ordSF y)).
Proof.
  intros Vx Vy Nx Ny.
  destruct x as [sx|sx| |sx mx ex], y as [sy|sy| |sy my ey]; try discriminate;
    try (apply SFcompare_ord_finite; assumption);
    cbn [valid_binary SpecFloat.valid_binary ordSF SFcompare] in *; f_equal; symmetry;
    try (pose proof (ordSF_finite_bounds _ _ Vx));
    try (pose proof (ordSF_finite_bounds _ _ Vy));
    repeat match goal with s : bool |- _ => destruct s end; cbn [cond_Zopp];
    first [ reflexivity
          | apply Z.compare_lt_iff; lia
          | apply Z.compare_gt_iff; lia ].
Qed.

Theorem ltb_ord (a b : float) :
  isNumber a = true -> isNumber b = true ->
  (a <? b)%float = (ord a <? ord b).
Proof.
  unfold isNumber, ord. rewrite !negb_true_iff. intros Na Nb.
  rewrite ltb_spec. unfold SFltb.
  rewrite (SFcompare_ord _ _ (Prim2SF_valid a) (Prim2SF_valid b) Na Nb).
  unfold Z.ltb. destruct (Z.compare _ _); reflexivity.
Qed.

(** Finite inputs give numbers. *)

Lemma nonNegative_isNumber (a : float) : nonNegative a -> isNumber a = true.
Proof. unfold nonNegative, isNumber. destruct (Prim2SF a); cbn; tauto. Qed.

Lemma signed_not_nan (sx : bool) (r : spec_float) : signed sx r -> isNaN r = false.
Proof. destruct r; cbn; tauto. Qed.

Lemma sub_isNumber (a b : float) :
  isFinite a = true -> isFinite b = true -> isNumber (a - b) = true.
Proof.
  unfold isFinite, isNumber. rewrite sub_spec.
  pose proof (Prim2SF_valid a) as Va. pose proof (Prim2SF_valid b) as Vb.
  destruct (Prim2SF a) as [sx|sx| |sx mx ex], (Prim2SF b) as [sy|sy| |sy my ey];
    try discriminate; intros _ _.
  - destruct sx, sy; reflexivity.
  - reflexivity.
  - reflexivity.
  - cbn [valid_binary SpecFloat.valid_binary] in Va, Vb.
    destruct (bounded_inv mx ex Va) as (_ & Ex & _).
    destruct (bounded_inv my ey Vb) as (_ & Ey & _).
    unfold SF64sub, SFsub. cbv zeta.
    match goal with |- context [binary_normalize _ _ ?d ?e _] =>
      pose proof (binary_normalize_sign d e ltac:(lia)) as Hn;
      destruct (Z.compare d 0)
    end.
    + rewrite Hn. reflexivity.
    + rewrite (signed_not_nan _ _ Hn). reflexivity.
    + rewrite (signed_not_nan _ _ Hn). reflexivity.
Qed.

Lemma mul_self_nonNegative (a : float) :
  isNumber a = true -> nonNegative (a * a).
Proof.
  unfold isNumber, nonNegative. rewrite mul_spec.
  destruct (Prim2SF a) as [sx|sx| |sx mx ex]; try discriminate; intros _;
    unfold SF64mul, SFmul.
  - cbn. destruct sx; reflexivity.
  - cbn. destruct sx; reflexivity.
  - replace false with (xorb sx sx) by (destruct sx; reflexivity).
    apply binary_round_aux_signedOrZero. lia.
Qed.

Lemma add_nonNegative (a b : float) :
  nonNegative a -> nonNegative b -> nonNegative (a + b).
Proof.
  unfold nonNegative. rewrite add_spec.
  pose proof (Prim2SF_valid a) as Va. pose proof (Prim2SF_valid b) as Vb.
  destruct (Prim2SF a) as [sx|sx| |sx mx ex], (Prim2SF b) as [sy|sy| |sy my ey];
    cbn [signedOrZero]; try tauto; intros -> ->; try reflexivity.
  cbn [valid_binary SpecFloat.valid_binary] in Va, Vb.
  destruct (bounded_inv mx ex Va) as (_ & Ex & _).
  destruct (bounded_inv my ey Vb) as (_ & Ey & _).
  unfold SF64add, SFadd. cbv zeta. cbn [cond_Zopp].
  match goal with |- context [Z.pos ?p + Z.pos ?q] =>
    change (Z.pos p + Z.pos q) with (Z.pos (p + q)) end.
  cbn [binary_normalize].
  pose proof (binary_round_signed false
                (fst (shl_align mx ex (Z.min ex ey)) + fst (shl_align my ey (Z.min ex ey)))
                (Z.min ex ey) ltac:(lia)) as Hs.
  destruct (binary_round _ _ _ _ _); cbn in Hs |- *; tauto.
Qed.

Lemma sqrt_nonNegative (a : float) : nonNegative a -> nonNegative (PrimFloat.sqrt a).
Proof.
  unfold nonNegative. rewrite sqrt_spec.
  destruct (Prim2SF a) as [sx|sx| |sx mx ex]; cbn [signedOrZero]; try tauto; intros ->;
    try reflexivity.
  unfold SF64sqrt, SFsqrt.
  destruct (SFsqrt_core_binary prec emax (Zpos mx) ex) as [[mz ez] lz] eqn:Hc.
  apply binary_round_aux_signedOrZero.
  unfold SFsqrt_core_binary in Hc.
  match type of Hc with context [Z.sqrtrem ?m] =>
    pose proof (Z.sqrtrem_sqrt m) as Hq; pose proof (Z.sqrt_nonneg m) as Hn;
    destruct (Z.sqrtrem m) as [q r]
  end.
  cbn [fst] in Hq. injection Hc as <- _ _. lia.
Qed.

End DoubleFacts.
(** ** Strings and values *)

Lemma contains_empty (s : string) : contains "" s = true.
Proof. destruct s; reflexivity. Qed.

Lemma prefix_refl (m : string) : String.prefix m m = true.
Proof.
  induction m as [|c m IH]; simpl; [reflexivity|].
  destruct (Ascii.ascii_dec c c); [exact IH | congruence].
Qed.

Lemma contains_prefix (a s : string) : String.prefix a s = true -> contains a s = true.
Proof. intros H. destruct s; cbn [contains]; rewrite H; reflexivity. Qed.

Lemma contains_append_r (p m : string) : contains m (p +:+ m) = true.
Proof.
  induction p as [|c p IH].
  - apply contains_prefix, prefix_refl.
  - change (String c p +:+ m) with (String c (p +:+ m)).
    cbn [contains]. rewrite IH. apply orb_true_r.
Qed.

Lemma truthy_string (s : string) : ToBoolean (VStr s) = true <-> s <> "".
Proof.
  simpl. rewrite negb_true_iff. split.
  - intros H ->. discriminate.
  - intros H. apply String.eqb_neq. exact H.
Qed.

Lemma Get_truthy_receiver (v x : Value) (k : string) :
  Get v k = Normal x -> ToBoolean x = true -> ToBoolean v = true.
Proof.
  destruct v; simpl; try (intros [= <-]; discriminate); try discriminate.
  reflexivity.
Qed.

(** ** Solver client *)

(** Once the endpoint is configured, [solveCaptcha] posts the image and
    goes on with the outcome of the request. *)
Lemma solveCaptcha_configured (h : Host) (img : string) (w : World) :
  apiUrl (configOf h) <> "" ->
  solveCaptcha h img w =
  match host_fetch h (solverRequest (configOf h) img) with
  | Throw t => (Throw t, sent w (solverRequest (configOf h) img))
  | Normal response =>
      let w' := sent w (solverRequest (configOf h) img) in
      if ok response then
        match response_json response with
        | Throw t => (Throw t, w')
        | Normal data =>
            if ToBoolean data then
              match Get data "data" with
              | Throw t => (Throw t, w')
              | Normal d =>
                  if ToBoolean d then (Normal d, w')
                  else (Throw (Error "Captcha solver API did not return a valid solution."), w')
              end
            else (Throw (Error "Captcha solver API did not return a valid solution."), w')
        end
      else
        let errorData :=
          match response_json response with
          | Normal j => j
          | Throw _ => VObj [("message", VStr (statusText response))]
          end in
        match Get errorData "message" with
        | Throw t => (Throw t, w')
        | Normal msg =>
            (Throw (Error ("Captcha solver API error: "
                             +:+ ToString (number_toString h) (or_else msg (VStr "Unknown error")))), w')
        end
  end.
Proof.
  intros Hurl. apply truthy_string in Hurl.
  unfold solveCaptcha, getSolverConfig, bind, ret, try_catch, throw, lift, fetch.
  fold (configOf h). rewrite Hurl. simpl negb. cbv iota.
  fold (solverRequest (configOf h) img). fold (sent w (solverRequest (configOf h) img)).
  destruct (host_fetch h (solverRequest (configOf h) img)) as [response|t]; [|reflexivity].
  cbv zeta.
  destruct (ok response); simpl negb; cbv iota.
  - destruct (response_json response) as [data|t]; [|reflexivity].
    destruct (ToBoolean data); simpl negb; cbv iota; [|reflexivity].
    destruct (Get data "data") as [d|t]; [|reflexivity].
    destruct (ToBoolean d); reflexivity.
  - destruct (response_json response) as [j|t]; cbv iota.
    + destruct (Get j "message"); reflexivity.
    + destruct (Get (VObj [("message", VStr (statusText response))]) "message"); reflexivity.
Qed.

(** C7: with an empty [apiUrl] in the stored configuration, [solveCaptcha]
    fails with the configuration error and leaves the world as it found
    it: no request is issued. *)
Theorem solveCaptcha_unconfigured (h : Host) (config : CaptchaSolverConfig)
    (img : string) (w : World) :
  storage_captchaSolverConfig h = Some config ->
  apiUrl config = "" ->
  solveCaptcha h img w = (Throw (Error "Captcha solver API URL is not configured."), w)
  /\ network (snd (solveCaptcha h img w)) = network w.
Proof.
  intros Hc Hurl.
  assert (solveCaptcha h img w
          = (Throw (Error "Captcha solver API URL is not configured."), w)) as E.
  { unfold solveCaptcha, getSolverConfig, bind, ret, throw.
    rewrite Hc, Hurl. reflexivity. }
  rewrite E. split; reflexivity.
Qed.

Lemma solveCaptcha_unconfigured_witness :
  solveCaptcha Sample.unconfigured "data:image/png;base64,iVBORw0KGgo=" emptyWorld
  = (Throw (Error "Captcha solver API URL is not configured."), emptyWorld)
  /\ network (snd (solveCaptcha Sample.unconfigured
                     "data:image/png;base64,iVBORw0KGgo=" emptyWorld)) = [].
Proof.
  apply (solveCaptcha_unconfigured Sample.unconfigured
           {| apiUrl := ""; apiKey := "secret" |}); reflexivity.
Defined.

(** C6: a success response whose JSON body has no field [data] makes
    [solveCaptcha] fail with the "no valid solution" error. *)
Theorem solveCaptcha_no_data (h : Host) (img : string) (w : World)
    (response : Response) (data : Value) :
  apiUrl (configOf h) <> "" ->
  host_fetch h (solverRequest (configOf h) img) = Normal response ->
  ok response = true ->
  response_json response = Normal data ->
  hasField data "data" = false ->
  fst (solveCaptcha h img w)
  = Throw (Error "Captcha solver API did not return a valid solution.").
Proof.
  intros Hurl Hf Hok Hj Hno.
  rewrite (solveCaptcha_configured h img w Hurl), Hf. cbv zeta. rewrite Hok, Hj.
  destruct (ToBoolean data) eqn:Ht; [|reflexivity].
  destruct data; simpl in Ht; try discriminate; simpl in Hno |- *; try reflexivity.
  destruct (assoc "data" fields); [discriminate | reflexivity].
Qed.

Lemma solveCaptcha_no_data_witness :
  fst (solveCaptcha Sample.noData "data:," emptyWorld)
  = Throw (Error "Captcha solver API did not return a valid solution.").
Proof.
  apply (solveCaptcha_no_data Sample.noData "data:," emptyWorld
           (Sample.respond 200 "OK" (Normal (VObj []))) (VObj []));
    [discriminate | reflexivity | reflexivity | reflexivity | reflexivity].
Defined.

(** C4, as stated, fails: a 200 response whose body has a field [data]
    holding the empty string does not make [solveCaptcha] resolve to that
    value; it fails with the "no valid solution" error. *)
Lemma solveCaptcha_empty_data_rejected :
  let response := Sample.respond 200 "OK" (Normal (VObj [("data", VStr "")])) in
  host_fetch Sample.emptyData (solverRequest (configOf Sample.emptyData) "data:,")
  = Normal response
  /\ ok response = true
  /\ response_json response = Normal (VObj [("data", VStr "")])
  /\ hasField (VObj [("data", VStr "")]) "data" = true
  /\ Get (VObj [("data", VStr "")]) "data" = Normal (VStr "")
  /\ fst (solveCaptcha Sample.emptyData "data:," emptyWorld)
     = Throw (Error "Captcha solver API did not return a valid solution.")
  /\ fst (solveCaptcha Sample.emptyData "data:," emptyWorld) <> Normal (VStr "").
Proof. cbv zeta. repeat split; try reflexivity. discriminate. Qed.

(** C4, amended: a success response whose JSON body has a field [data]
    with a truthy value makes [solveCaptcha] resolve to exactly that
    value, after issuing the one request. *)
Theorem solveCaptcha_returns_data (h : Host) (img : string) (w : World)
    (response : Response) (body solution : Value) :
  apiUrl (configOf h) <> "" ->
  host_fetch h (solverRequest (configOf h) img) = Normal response ->
  ok response = true ->
  response_json response = Normal body ->
  Get body "data" = Normal solution ->
  ToBoolean solution = true ->
  solveCaptcha h img w = (Normal solution, sent w (solverRequest (configOf h) img)).
Proof.
  intros Hurl Hf Hok Hj Hd Ht.
  rewrite (solveCaptcha_configured h img w Hurl), Hf. cbv zeta. rewrite Hok, Hj.
  rewrite (Get_truthy_receiver _ _ _ Hd Ht), Hd, Ht. reflexivity.
Qed.

Lemma solveCaptcha_returns_data_witness :
  fst (solveCaptcha Sample.solved "data:," emptyWorld) = Normal (VStr "AB12").
Proof.
  rewrite (solveCaptcha_returns_data Sample.solved "data:," emptyWorld
             (Sample.respond 200 "OK" (Normal (VObj [("data", VStr "AB12")])))
             (VObj [("data", VStr "AB12")]) (VStr "AB12"));
    [reflexivity | discriminate | reflexivity | reflexivity | reflexivity
    | reflexivity | reflexivity].
Defined.

(** C5: on a non-success response [solveCaptcha] fails; when the body
    parses as JSON with a string field [message], the error message ends
    with that string (with "Unknown error" when it is empty) and so
    contains it; when the body does not parse, the same holds with the
    status text of the response. *)
Theorem solveCaptcha_error_response (h : Host) (img : string) (w : World)
    (response : Response) :
  apiUrl (configOf h) <> "" ->
  host_fetch h (solverRequest (configOf h) img) = Normal response ->
  ok response = false ->
  (exists t, fst (solveCaptcha h img w) = Throw t)
  /\ (forall body m,
        response_json response = Normal body ->
        Get body "message" = Normal (VStr m) ->
        exists e,
          fst (solveCaptcha h img w) = Throw (Error e)
          /\ e = "Captcha solver API error: "
                   +:+ (if String.eqb m "" then "Unknown error" else m)
          /\ contains m e = true)
  /\ (forall t,
        response_json response = Throw t ->
        exists e,
          fst (solveCaptcha h img w) = Throw (Error e)
          /\ e = "Captcha solver API error: "
                   +:+ (if String.eqb (statusText response) ""
                        then "Unknown error" else statusText response)
          /\ contains (statusText response) e = true).
Proof.
  intros Hurl Hf Hok.
  rewrite (solveCaptcha_configured h img w Hurl), Hf. cbv zeta. rewrite Hok.
  assert (forall m, contains m ("Captcha solver API error: "
            +:+ (if String.eqb m "" then "Unknown error" else m)) = true) as Hc.
  { intros m. destruct (String.eqb_spec m "") as [->|_].
    - apply contains_empty.
    - apply contains_append_r. }
  assert (forall m, ToString (number_toString h) (or_else (VStr m) (VStr "Unknown error"))
                    = if String.eqb m "" then "Unknown error" else m) as Hs.
  { intros m. unfold or_else. simpl. destruct (String.eqb m ""); reflexivity. }
  split; [|split].
  - destruct (response_json response) as [j|t].
    + destruct (Get j "message"); eexists; reflexivity.
    + simpl. eexists; reflexivity.
  - intros body m -> ->. eexists. split; [reflexivity|].
    rewrite Hs. split; [reflexivity | apply Hc].
  - intros t ->. simpl Get. cbv iota. eexists. split; [reflexivity|].
    rewrite Hs. split; [reflexivity | apply Hc].
Qed.

Lemma solveCaptcha_error_response_witness :
  exists e,
    fst (solveCaptcha Sample.badImage "data:," emptyWorld) = Throw (Error e)
    /\ e = "Captcha solver API error: bad image"
    /\ contains "bad image" e = true.
Proof.
  destruct (solveCaptcha_error_response Sample.badImage "data:," emptyWorld
              (Sample.respond 500 "Internal Server Error"
                 (Normal (VObj [("message", VStr "bad image")]))))
    as (_ & Hmsg & _); [discriminate | reflexivity | reflexivity |].
  exact (Hmsg (VObj [("message", VStr "bad image")]) "bad image" eq_refl eq_refl).
Defined.

(** ** Detector: the sort *)

Lemma sort_insert_Permutation {A : Type} (cmp : A -> A -> comparison) (x : A)
    (l : list A) :
  Permutation (sort_insert cmp x l) (x :: l).
Proof.
  induction l as [|y l IH]; simpl; [reflexivity|].
  destruct (cmp x y); try reflexivity.
  rewrite IH. apply perm_swap.
Qed.

(** Whatever the callback answers, sorting rearranges the array. *)
Lemma Array_sort_Permutation {A : Type} (cmp : A -> A -> comparison) (l : list A) :
  Permutation (Array_sort cmp l) l.
Proof.
  induction l as [|x l IH]; simpl; [reflexivity|].
  rewrite sort_insert_Permutation, IH. reflexivity.
Qed.

Lemma sort_insert_ext {A : Type} (cmp cmp' : A -> A -> comparison) (x : A)
    (l : list A) :
  (forall y, In y l -> cmp x y = cmp' x y) ->
  sort_insert cmp x l = sort_insert cmp' x l.
Proof.
  induction l as [|y l IH]; intros H; simpl; [reflexivity|].
  rewrite (H y (or_introl eq_refl)), IH; [reflexivity|].
  intros z Hz. apply H. right. exact Hz.
Qed.

(** Two callbacks that agree on the elements of the array sort it alike. *)
Lemma Array_sort_ext {A : Type} (cmp cmp' : A -> A -> comparison) (l : list A) :
  (forall a b, In a l -> In b l -> cmp a b = cmp' a b) ->
  Array_sort cmp l = Array_sort cmp' l.
Proof.
  induction l as [|x l IH]; intros H; simpl; [reflexivity|].
  rewrite IH by (intros a b Ha Hb; apply H; right; assumption).
  apply sort_insert_ext. intros y Hy. apply H; [left; reflexivity | right].
  eapply Permutation_in; [apply Array_sort_Permutation | exact Hy].
Qed.

Section SortHead.
Context {A : Type} (key : A -> Z).
Let cmp (a b : A) : comparison := Z.compare (key a) (key b).

Lemma sort_insert_head (x : A) (l : list A) :
  exists rest,
    sort_insert cmp x l
    = match l with
      | [] => x
      | y :: _ => if key y <? key x then y else x
      end :: rest.
Proof.
  destruct l as [|y l]; simpl.
  - eexists; reflexivity.
  - unfold cmp. rewrite Z.ltb_antisym, Z.leb_compare.
    destruct (Z.compare (key x) (key y)); eexists; reflexivity.
Qed.

Lemma sort_insert_sorted (x : A) (l : list A) :
  StronglySorted (fun a b => key a <= key b) l ->
  StronglySorted (fun a b => key a <= key b) (sort_insert cmp x l).
Proof.
  induction 1 as [|y l Hl IH Hy]; simpl.
  - repeat constructor.
  - unfold cmp at 1. destruct (Z.compare_spec (key x) (key y)) as [E|L|G].
    + constructor; [constructor; assumption|].
      constructor; [lia|]. eapply List.Forall_impl; [|exact Hy]. simpl. lia.
    + constructor; [constructor; assumption|].
      constructor; [lia|]. eapply List.Forall_impl; [|exact Hy]. simpl. lia.
    + constructor; [exact IH|].
      rewrite sort_insert_Permutation. constructor; [lia | exact Hy].
Qed.

(** [Array_sort] sorts: its result is ordered by the key. *)
Lemma Array_sort_sorted (l : list A) :
  StronglySorted (fun a b => key a <= key b) (Array_sort cmp l).
Proof.
  induction l as [|x l IH]; simpl; [constructor | apply sort_insert_sorted, IH].
Qed.

(** A sorted non-empty array starts with the first of its minima. *)
Lemma Array_sort_head (l : list A) :
  l <> [] ->
  exists i x rest, Array_sort cmp l = x :: rest /\ firstMinimum key l i x.
Proof.
  induction l as [|a l IH]; [congruence|]. intros _.
  destruct l as [|b l].
  - exists 0%nat, a, []. split; [reflexivity|]. repeat split.
    + intros [|[|j]] y; simpl; intros [= <-]. lia.
    + intros j y Hj. lia.
  - destruct IH as (i & x & rest & Hs & Hi & Hmin & Hfirst); [congruence|].
    cbn [Array_sort] in Hs |- *. rewrite Hs.
    destruct (sort_insert_head a (x :: rest)) as [rest' ->].
    destruct (Z.ltb_spec (key x) (key a)) as [Hlt|Hge].
    + exists (S i), x, rest'. split; [reflexivity|]. repeat split.
      * exact Hi.
      * intros [|j] y; simpl.
        -- intros [= <-]. lia.
        -- apply Hmin.
      * intros [|j] y Hj; simpl.
        -- intros [= <-]. exact Hlt.
        -- apply Hfirst. lia.
    + exists 0%nat, a, rest'. split; [reflexivity|]. repeat split.
      * intros [|j] y; simpl.
        -- intros [= <-]. lia.
        -- intros Hy. specialize (Hmin j y Hy). lia.
      * intros j y Hj. lia.
Qed.
End SortHead.

(** The callback subtracts the two rounded distances. *)
Lemma compareFn_rounded (img a b : Node) :
  compareFn img a b = (roundedDistanceTo img a - roundedDistanceTo img b)%float.
Proof. reflexivity. Qed.

(** Between corners with finite coordinates the rounded distance is a
    number, and not a negative one. *)
Lemma roundedDistance_nonNegative (p q : DOMRect) :
  Double.isFinite (rect_x p) = true -> Double.isFinite (rect_y p) = true ->
  Double.isFinite (rect_x q) = true -> Double.isFinite (rect_y q) = true ->
  Double.nonNegative (roundedDistance p q).
Proof.
  intros Hpx Hpy Hqx Hqy. unfold roundedDistance. cbv zeta.
  apply DoubleFacts.sqrt_nonNegative, DoubleFacts.add_nonNegative;
    apply DoubleFacts.mul_self_nonNegative, DoubleFacts.sub_isNumber; assumption.
Qed.

Lemma roundedDistanceTo_isNumber (img n : Node) :
  finiteCorner img = true -> finiteCorner n = true ->
  Double.isNumber (roundedDistanceTo img n) = true.
Proof.
  unfold finiteCorner. rewrite !andb_true_iff. intros [Hx Hy] [Hx' Hy'].
  apply DoubleFacts.nonNegative_isNumber, roundedDistance_nonNegative; assumption.
Qed.

(** On numbers, [sort] reads the difference of two doubles as their
    comparison. *)
Lemma SortCompare_sub (a b : float) :
  Double.isNumber a = true -> Double.isNumber b = true ->
  SortCompare (a - b) = Z.compare (Double.ord a) (Double.ord b).
Proof.
  intros Ha Hb. unfold SortCompare.
  destruct (DoubleFacts.sub_ltb a b) as [E1 E2]. rewrite E1, E2.
  rewrite (DoubleFacts.ltb_ord a b Ha Hb), (DoubleFacts.ltb_ord b a Hb Ha).
  destruct (Z.compare_spec (Double.ord a) (Double.ord b)) as [E|L|G];
    destruct (Z.ltb_spec (Double.ord a) (Double.ord b));
    destruct (Z.ltb_spec (Double.ord b) (Double.ord a)); try reflexivity; lia.
Qed.

Lemma firstMinimum_nearestFirstRounded (img : Node) (inputs : list Node) (i : nat)
    (x : Node) :
  finiteCorner img = true ->
  List.Forall (fun n => finiteCorner n = true) inputs ->
  firstMinimum (keyOf img) inputs i x -> nearestFirstRounded img inputs i x.
Proof.
  intros Himg Hall (Hi & Hmin & Hfirst).
  assert (forall j y, nth_error inputs j = Some y ->
                      Double.isNumber (roundedDistanceTo img y) = true) as Hnum.
  { intros j y Hy. apply roundedDistanceTo_isNumber; [exact Himg|].
    rewrite List.Forall_forall in Hall. apply Hall. eapply nth_error_In, Hy. }
  pose proof (Hnum i x Hi) as Hx.
  split; [exact Hi | split].
  - intros j y Hy. rewrite (DoubleFacts.ltb_ord _ _ (Hnum j y Hy) Hx).
    apply Z.ltb_ge. exact (Hmin j y Hy).
  - intros j y Hj Hy. rewrite (DoubleFacts.ltb_ord _ _ Hx (Hnum j y Hy)).
    apply Z.ltb_lt. exact (Hfirst j y Hj Hy).
Qed.

(** Among inputs with finite corners, the sorted array starts with the
    first of the inputs nearest to the image. *)
Lemma Array_prototype_sort_head (img : Node) (inputs : list Node) :
  finiteCorner img = true ->
  List.Forall (fun n => finiteCorner n = true) inputs ->
  inputs <> [] ->
  exists i x rest,
    Array_prototype_sort (compareFn img) inputs = x :: rest
    /\ nearestFirstRounded img inputs i x.
Proof.
  intros Himg Hall Hne.
  destruct (Array_sort_head (keyOf img) inputs Hne) as (i & x & rest & Hs & Hmin).
  exists i, x, rest. split.
  - rewrite <- Hs. unfold Array_prototype_sort. apply Array_sort_ext.
    intros a b Ha Hb. rewrite List.Forall_forall in Hall.
    rewrite compareFn_rounded. apply SortCompare_sub;
      apply roundedDistanceTo_isNumber; auto.
  - apply firstMinimum_nearestFirstRounded; assumption.
Qed.

(** Whatever the corners, the sorted array is empty only when the array
    is, and starts with one of its elements. *)
Lemma Array_prototype_sort_nil {A : Type} (f : A -> A -> float) (l : list A) :
  Array_prototype_sort f l = [] -> l = [].
Proof.
  intros H. apply Permutation_nil.
  rewrite <- H. unfold Array_prototype_sort. apply Array_sort_Permutation.
Qed.

Lemma Array_prototype_sort_In {A : Type} (f : A -> A -> float) (l : list A) (x : A)
    (rest : list A) :
  Array_prototype_sort f l = x :: rest -> In x l.
Proof.
  intros H. eapply Permutation_in; [apply Array_sort_Permutation|].
  unfold Array_prototype_sort in H. rewrite H. left. reflexivity.
Qed.

(** ** Detector: the two loops *)

Lemma queried_nil (w : World) : queried w [] = w.
Proof. destruct w. unfold queried. simpl. rewrite app_nil_r. reflexivity. Qed.

Lemma queried_app (w : World) (a b : list DomQuery) :
  queried (queried w a) b = queried w (a ++ b).
Proof. unfold queried. simpl. rewrite app_assoc. reflexivity. Qed.

Lemma document_querySelector_eq (d : Document) (s : Selector) (w : World) :
  document_querySelector d s w
  = (Normal (List.find (nodeMatches s) (allElements d)), queried w [docQuery s]).
Proof. reflexivity. Qed.

Lemma querySelectorAll_eq (parent : Node) (s : Selector) (w : World) :
  querySelectorAll (Some parent) s w
  = (Normal (List.filter (nodeMatches s) (descendants parent)),
     queried w [scopedQuery parent s]).
Proof. reflexivity. Qed.

Lemma querySelectorAll_null (s : Selector) (w : World) :
  querySelectorAll None s w
  = (Throw (JsError "TypeError"
              "Cannot read properties of null (reading 'querySelectorAll')"), w).
Proof. reflexivity. Qed.


Lemma find_none {A : Type} (f : A -> bool) (l : list A) :
  Forall (fun n => f n = false) l -> List.find f l = None.
Proof. induction 1 as [|n l Hn _ IH]; simpl; [|rewrite Hn]; auto. Qed.

Lemma findCaptchaImage_none (d : Document) (sels : list Selector) (w : World) :
  Forall (fun s => List.find (nodeMatches s) (allElements d) = None) sels ->
  findCaptchaImage d sels w = (Normal None, queried w (map docQuery sels)).
Proof.
  intros H. revert w. induction H as [|s sels Hs _ IH]; intros w.
  - simpl. rewrite queried_nil. reflexivity.
  - cbn [findCaptchaImage]. unfold bind. rewrite document_querySelector_eq, Hs, IH.
    rewrite queried_app. reflexivity.
Qed.


(** Either loop ends normally. *)
Lemma findCaptchaImage_normal (d : Document) (sels : list Selector) (w : World) :
  exists r w', findCaptchaImage d sels w = (Normal r, w').
Proof.
  revert w. induction sels as [|s sels IH]; intros w.
  - eexists _, _. reflexivity.
  - cbn [findCaptchaImage]. unfold bind. rewrite document_querySelector_eq.
    destruct (List.find (nodeMatches s) (allElements d)).
    + eexists _, _. reflexivity.
    + apply IH.
Qed.

Lemma findCaptchaInput_normal (img parent : Node) (sels : list Selector) (w : World) :
  exists r w', findCaptchaInput img (Some parent) sels w = (Normal r, w').
Proof.
  revert w. induction sels as [|s sels IH]; intros w.
  - eexists _, _. reflexivity.
  - cbn [findCaptchaInput]. unfold bind. rewrite querySelectorAll_eq.
    destruct (Array_prototype_sort _ _).
    + apply IH.
    + eexists _, _. reflexivity.
Qed.

Lemma Array_prototype_sort_empty {A : Type} (f : A -> A -> float) :
  Array_prototype_sort f [] = [].
Proof. reflexivity. Qed.

(** Without a scope the second loop stops at its first query. *)
Lemma findCaptchaInput_null (img : Node) (s : Selector) (sels : list Selector)
    (w : World) :
  findCaptchaInput img None (s :: sels) w
  = (Throw (JsError "TypeError"
              "Cannot read properties of null (reading 'querySelectorAll')"), w).
Proof. reflexivity. Qed.

Lemma findCaptchaInput_first (img parent : Node) (pre : list Selector) (s : Selector)
    (post : list Selector) (x : Node) (rest : list Node) (w : World) :
  Forall (fun s' => List.filter (nodeMatches s') (descendants parent) = []) pre ->
  Array_prototype_sort (compareFn img)
    (List.filter (nodeMatches s) (descendants parent)) = x :: rest ->
  findCaptchaInput img (Some parent) (pre ++ s :: post) w
  = (Normal (Some x), queried w (map (scopedQuery parent) (pre ++ [s]))).
Proof.
  intros H Hx. revert w. induction H as [|s' pre Hs _ IH]; intros w.
  - cbn [findCaptchaInput app]. unfold bind. rewrite querySelectorAll_eq, Hx. reflexivity.
  - cbn [findCaptchaInput app]. unfold bind. rewrite querySelectorAll_eq, Hs.
    rewrite Array_prototype_sort_empty, IH, queried_app. reflexivity.
Qed.

Lemma findCaptcha_eq (d : Document) (w : World) :
  findCaptcha d w
  = match findCaptchaImage d captchaImageSelectors w with
    | (Normal None, w1) => (Normal None, w1)
    | (Normal (Some img), w1) =>
        match findCaptchaInput img (searchScope d img) captchaInputSelectors w1 with
        | (Normal None, w2) => (Normal None, w2)
        | (Normal (Some inp), w2) => (Normal (Some {| image := img; input := inp |}), w2)
        | (Throw t, w2) => (Throw t, w2)
        end
    | (Throw t, w1) => (Throw t, w1)
    end.
Proof.
  unfold findCaptcha, bind.
  destruct (findCaptchaImage d captchaImageSelectors w) as [[[img|]|t] w1]; try reflexivity.
  destruct (findCaptchaInput img (searchScope d img) captchaInputSelectors w1)
    as [[[inp|]|t] w2]; reflexivity.
Qed.

(** ** Detector: the tree *)

Lemma subtree_unfold (p : Path) (e : Element) :
  subtree p e = {| node_path := p; node_elem := e |} :: subtrees p 0 (children e).
Proof. destruct e. reflexivity. Qed.

Lemma subtree_elementAt (e : Element) :
  forall p n, In n (subtree p e) ->
    exists q, node_path n = p ++ q /\ elementAt e q = Some (node_elem n).
Proof.
  induction e as [t a r cs IH] using Element_induction. intros p n.
  rewrite subtree_unfold. cbn [children]. intros [<-|Hin].
  - exists []. rewrite app_nil_r. split; reflexivity.
  - assert (forall i, In n (subtrees p i cs) ->
              exists j c q, nth_error cs j = Some c
                            /\ node_path n = p ++ [(i + j)%nat] ++ q
                            /\ elementAt c q = Some (node_elem n)) as Hcs.
    { clear Hin. induction IH as [|c cs Hc _ IHcs]; intros i; cbn [subtrees].
      - intros [].
      - intros Hin. apply in_app_or in Hin. destruct Hin as [Hin|Hin].
        + destruct (Hc _ _ Hin) as (q & Hp & Hq).
          exists 0%nat, c, q. rewrite Nat.add_0_r, Hp, <- app_assoc. auto.
        + destruct (IHcs _ Hin) as (j & c' & q & Hj & Hp & Hq).
          exists (S j), c', q. rewrite Nat.add_succ_r. auto. }
    destruct (Hcs 0%nat Hin) as (j & c & q & Hj & Hp & Hq).
    exists (j :: q). split; [exact Hp|]. cbn [elementAt children]. rewrite Hj. exact Hq.
Qed.

Lemma chain_sound (p : Path) :
  forall pre e n, In n (chain pre e p) ->
    exists q r, p = q ++ r /\ node_path n = pre ++ q /\ elementAt e q = Some (node_elem n).
Proof.
  induction p as [|i p IH]; intros pre e n; cbn [chain].
  - intros [<-|[]]. exists [], []. simpl. rewrite app_nil_r. repeat split.
  - intros [<-|Hin].
    + exists [], (i :: p). simpl. rewrite app_nil_r. repeat split.
    + destruct (nth_error (children e) i) as [c|] eqn:Hc; [|destruct Hin].
      destruct (IH _ _ _ Hin) as (q & r & -> & Hp & Hq).
      exists (i :: q), r. rewrite Hp, <- app_assoc. cbn [elementAt]. rewrite Hc.
      repeat split. exact Hq.
Qed.

Lemma chain_complete (q : Path) :
  forall r pre e y, elementAt e q = Some y ->
    In {| node_path := pre ++ q; node_elem := y |} (chain pre e (q ++ r)).
Proof.
  induction q as [|i q IH]; intros r pre e y; cbn [elementAt].
  - intros [= <-]. rewrite app_nil_r. destruct r; left; reflexivity.
  - destruct (nth_error (children e) i) as [c|] eqn:Hc; [|discriminate].
    intros Hy. cbn [chain app]. rewrite Hc. right.
    replace (pre ++ i :: q) with ((pre ++ [i]) ++ q) by (rewrite <- app_assoc; reflexivity).
    apply IH, Hy.
Qed.

Lemma chain_depth (p : Path) :
  forall pre e k n, nth_error (chain pre e p) k = Some n ->
    length (node_path n) = (length pre + k)%nat.
Proof.
  induction p as [|i p IH]; intros pre e k n; cbn [chain].
  - destruct k as [|[|k]]; simpl; intros [= <-]. simpl. lia.
  - destruct k as [|k]; simpl.
    + intros [= <-]. simpl. lia.
    + destruct (nth_error (children e) i) as [c|]; [|destruct k; discriminate].
      intros Hk. rewrite (IH _ _ _ _ Hk), length_app. simpl. lia.
Qed.

Lemma find_split {A : Type} (f : A -> bool) (l : list A) (x : A) :
  List.find f l = Some x ->
  exists l1 l2, l = l1 ++ x :: l2 /\ f x = true /\ Forall (fun y => f y = false) l1.
Proof.
  induction l as [|a l IH]; simpl; [discriminate|].
  destruct (f a) eqn:Ha.
  - intros [= <-]. exists [], l. auto.
  - intros Hx. destruct (IH Hx) as (l1 & l2 & -> & Hfx & Hl1).
    exists (a :: l1), l2. auto.
Qed.

Lemma nodeMatches_form (n : Node) : nodeMatches form_selector n = true <-> isForm n.
Proof.
  unfold nodeMatches, matches, isForm. simpl. rewrite andb_true_r. apply String.eqb_eq.
Qed.

Lemma encloses_chain (d : Document) (g img : Node) :
  encloses d g img -> In g (chain [] (documentElement d) (node_path img)).
Proof.
  intros [[q Hq] Hg]. rewrite Hq. destruct g as [pg eg]. simpl in *.
  apply (chain_complete pg q [] (documentElement d) eg Hg).
Qed.

Lemma chain_encloses (d : Document) (g img : Node) :
  In g (chain [] (documentElement d) (node_path img)) -> encloses d g img.
Proof.
  intros Hin. destruct (chain_sound _ _ _ _ Hin) as (q & r & Hp & Hg & He).
  simpl in Hg. split.
  - exists r. rewrite Hg. exact Hp.
  - rewrite Hg. exact He.
Qed.

(** [closest('form')] is the nearest enclosing form, if there is one. *)
Lemma closest_form (d : Document) (img : Node) :
  match closest d form_selector img with
  | Some form => nearestEnclosingForm d img form
  | None => noEnclosingForm d img
  end.
Proof.
  unfold closest.
  destruct (List.find _ _) as [form|] eqn:Hf.
  - destruct (find_split _ _ _ Hf) as (l1 & l2 & Hl & Hm & Hl1).
    assert (chain [] (documentElement d) (node_path img) = rev l2 ++ form :: rev l1) as Hc.
    { rewrite <- (rev_involutive (chain _ _ _)), Hl, rev_app_distr. simpl.
      rewrite <- app_assoc. reflexivity. }
    assert (length (node_path form) = length l2) as Hdepth.
    { rewrite (chain_depth (node_path img) [] (documentElement d) (length l2) form).
      - reflexivity.
      - rewrite Hc, nth_error_app2 by (rewrite length_rev; lia).
        rewrite length_rev, Nat.sub_diag. reflexivity. }
    split; [|split].
    + apply chain_encloses. rewrite Hc. apply in_or_app. right. left. reflexivity.
    + apply nodeMatches_form, Hm.
    + intros g Hg Hform. apply encloses_chain in Hg. rewrite Hc in Hg.
      apply in_app_or in Hg. destruct Hg as [Hg|[<-|Hg]].
      * apply In_nth_error in Hg. destruct Hg as [k Hk].
        assert (k < length (rev l2))%nat as Hlt by (apply nth_error_Some; congruence).
        rewrite (chain_depth (node_path img) [] (documentElement d) k g).
        -- rewrite length_rev in Hlt. simpl. lia.
        -- rewrite Hc, nth_error_app1 by exact Hlt. exact Hk.
      * lia.
      * apply in_rev in Hg. rewrite List.Forall_forall in Hl1.
        apply nodeMatches_form in Hform. rewrite (Hl1 g Hg) in Hform. discriminate.
  - intros g Hg Hform. apply encloses_chain in Hg.
    apply nodeMatches_form in Hform.
    pose proof (List.find_none _ _ Hf g) as Hn.
    rewrite Hn in Hform; [discriminate|]. apply in_rev in Hg. exact Hg.
Qed.

Lemma findCaptchaImage_found (d : Document) (sels : list Selector) (w : World) (img : Node) :
  fst (findCaptchaImage d sels w) = Normal (Some img) -> In img (allElements d).
Proof.
  revert w. induction sels as [|s sels IH]; intros w; cbn [findCaptchaImage].
  - discriminate.
  - unfold bind. rewrite document_querySelector_eq.
    destruct (List.find (nodeMatches s) (allElements d)) as [n|] eqn:Hn.
    + simpl. intros [= <-]. apply List.find_some in Hn. apply Hn.
    + apply IH.
Qed.

Lemma firstBody_elementAt (cs : list Element) :
  forall i b, firstBody i cs = Some b ->
    exists j, node_path b = [(i + j)%nat] /\ nth_error cs j = Some (node_elem b).
Proof.
  induction cs as [|c cs IH]; intros i b; cbn [firstBody]; [discriminate|].
  destruct (isBody c).
  - intros [= <-]. exists 0%nat. rewrite Nat.add_0_r. split; reflexivity.
  - intros Hb. destruct (IH _ _ Hb) as (j & Hp & Hj).
    exists (S j). rewrite Nat.add_succ_r. split; assumption.
Qed.

(** [document.body], when there is one, is a child of the root element. *)
Lemma document_body_elementAt (d : Document) (b : Node) :
  document_body d = Some b ->
  node_path b <> []
  /\ elementAt (documentElement d) (node_path b) = Some (node_elem b).
Proof.
  unfold document_body. destruct (String.eqb _ _); [|discriminate].
  intros Hb. destruct (firstBody_elementAt _ _ _ Hb) as (j & Hp & Hj).
  rewrite Hp. split; [discriminate|]. cbn [elementAt Nat.add]. rewrite Hj. reflexivity.
Qed.

(** ** Detector: the claims *)





(** When the image is found and neither a form encloses it nor the
    document has a body, the detector throws the [TypeError] of
    [parent.querySelectorAll]. *)
Lemma findCaptcha_null_scope (d : Document) (w w1 : World) (img : Node) :
  findCaptchaImage d captchaImageSelectors w = (Normal (Some img), w1) ->
  searchScope d img = None ->
  findCaptcha d w
  = (Throw (JsError "TypeError"
              "Cannot read properties of null (reading 'querySelectorAll')"), w1).
Proof.
  intros Himg Hscope. rewrite findCaptcha_eq, Himg, Hscope. reflexivity.
Qed.

(** C9, in the code: on a document without [body] whose image matches
    the third selector, outside any form, [findCaptcha] does not return:
    after the three document queries [document.body] is [null] and
    [parent.querySelectorAll] throws a [TypeError]. *)
Theorem findCaptcha_without_body :
  document_body Sample.bodiless = None
  /\ closest Sample.bodiless form_selector Sample.bodilessImg = None
  /\ findCaptchaImage Sample.bodiless captchaImageSelectors emptyWorld
     = (Normal (Some Sample.bodilessImg),
        queried emptyWorld (map docQuery [img_contains "title"; img_contains "src";
                                          img_contains "alt"]))
  /\ findCaptcha Sample.bodiless emptyWorld
     = (Throw (JsError "TypeError"
                 "Cannot read properties of null (reading 'querySelectorAll')"),
        queried emptyWorld (map docQuery [img_contains "title"; img_contains "src";
                                          img_contains "alt"])).
Proof. repeat split. Qed.

(** The scope of the search is the nearest enclosing form of the image,
    the body when no form encloses it. *)
Lemma searchScope_spec (d : Document) (img scope : Node) :
  searchScope d img = Some scope ->
  match closest d form_selector img with
  | Some form => scope = form /\ nearestEnclosingForm d img form
  | None => document_body d = Some scope /\ noEnclosingForm d img
  end.
Proof.
  pose proof (closest_form d img) as Hc. unfold searchScope.
  destruct (closest d form_selector img).
  - intros [= <-]. split; [reflexivity | exact Hc].
  - intros Hb. split; [exact Hb | exact Hc].
Qed.

(** C1, as stated, fails: both inputs of the page match the second
    input selector, the first one is selected, and the second one is at a
    strictly smaller Euclidean distance from the image.  The two
    distances, the square roots of 10^16 + 1 and of 10^16, are the same
    double. *)
Lemma findCaptcha_nearest_input_fails :
  fst (findCaptchaImage Sample.farPage captchaImageSelectors emptyWorld)
  = Normal (Some Sample.farImg)
  /\ searchScope Sample.farPage Sample.farImg = Some Sample.farBody
  /\ List.filter (nodeMatches (input_contains "id")) (descendants Sample.farBody) = []
  /\ List.filter (nodeMatches (input_contains "name")) (descendants Sample.farBody)
     = [Sample.farA; Sample.farB]
  /\ fst (findCaptcha Sample.farPage emptyWorld)
     = Normal (Some {| image := Sample.farImg; input := Sample.farA |})
  /\ (euclideanDistance (getBoundingClientRect (node_elem Sample.farImg))
                        (getBoundingClientRect (node_elem Sample.farB))
      < euclideanDistance (getBoundingClientRect (node_elem Sample.farImg))
                          (getBoundingClientRect (node_elem Sample.farA)))%R
  /\ roundedDistanceTo Sample.farImg Sample.farA = 100000000%float
  /\ roundedDistanceTo Sample.farImg Sample.farB = 100000000%float.
Proof.
  split; [reflexivity|]. split; [reflexivity|]. split; [reflexivity|].
  split; [reflexivity|]. split; [reflexivity|]. split; [|split; reflexivity].
  unfold euclideanDistance. apply sqrt_lt_1_alt. split.
  - replace 0%R with (Q2R 0) by (unfold Q2R; simpl; lra).
    apply Qle_Rle. vm_compute. discriminate.
  - apply Qlt_Rlt. vm_compute. reflexivity.
Qed.

(** C1, amended: for the image found, within the search scope (the
    nearest enclosing form of the image, the body when no form encloses
    it), when the corners have finite coordinates the first input
    selector with a match yields the input at the least distance from the
    image as double arithmetic computes it, corner to corner, each
    operation rounded, and among the inputs at the same rounded distance
    the first in query order. *)
Theorem findCaptcha_nearest_rounded (d : Document) (w : World) (img scope : Node)
    (pre : list Selector) (sel : Selector) (post : list Selector)
    (inputs : list Node) :
  fst (findCaptchaImage d captchaImageSelectors w) = Normal (Some img) ->
  searchScope d img = Some scope ->
  captchaInputSelectors = pre ++ sel :: post ->
  Forall (fun s => List.filter (nodeMatches s) (descendants scope) = []) pre ->
  List.filter (nodeMatches sel) (descendants scope) = inputs ->
  inputs <> [] ->
  finiteCorner img = true ->
  Forall (fun n => finiteCorner n = true) inputs ->
  elementAt (documentElement d) (node_path img) = Some (node_elem img)
  /\ match closest d form_selector img with
     | Some form => scope = form /\ nearestEnclosingForm d img form
     | None => document_body d = Some scope /\ noEnclosingForm d img
     end
  /\ exists i x,
       nearestFirstRounded img inputs i x
       /\ fst (findCaptcha d w) = Normal (Some {| image := img; input := x |}).
Proof.
  intros Himg Hscope Hsel Hpre Hin Hne Hfin Hall. split; [|split].
  - destruct (subtree_elementAt _ _ _ (findCaptchaImage_found _ _ _ _ Himg)) as (q & -> & Hq).
    exact Hq.
  - apply searchScope_spec, Hscope.
  - destruct (Array_prototype_sort_head img inputs Hfin Hall Hne)
      as (i & x & rest & Hs & Hmin).
    exists i, x. split; [exact Hmin|].
    rewrite findCaptcha_eq.
    destruct (findCaptchaImage d captchaImageSelectors w) as [r w1].
    simpl in Himg. subst r.
    rewrite Hscope, Hsel, (findCaptchaInput_first img scope pre sel post x rest).
    + reflexivity.
    + exact Hpre.
    + rewrite Hin. exact Hs.
Qed.


Lemma findCaptcha_nearest_rounded_witness :
  exists i x,
    nearestFirstRounded Sample.captchaImg
      (List.filter (nodeMatches (input_contains "name")) (descendants Sample.loginForm))
      i x
    /\ fst (findCaptcha Sample.page emptyWorld)
       = Normal (Some {| image := Sample.captchaImg; input := x |}).
Proof.
  apply (findCaptcha_nearest_rounded Sample.page emptyWorld Sample.captchaImg
           Sample.loginForm [input_contains "id"] (input_contains "name")
           (skipn 2 captchaInputSelectors));
    [reflexivity | reflexivity | reflexivity | repeat constructor | reflexivity
    | discriminate | reflexivity | repeat constructor].
Defined.

(** On the sample page the two inputs 30 units away tie; the one that
    comes first in the query result is taken. *)
Example findCaptcha_sample_tie :
  fst (findCaptcha Sample.page emptyWorld)
  = Normal (Some {| image := Sample.captchaImg; input := Sample.inputBelow |}).
Proof. reflexivity. Qed.

(** An input whose [type] is written in capitals matches the selector
    [input[type="text"][maxlength="6"]] and is the one selected. *)
Example findCaptcha_type_in_capitals :
  fst (findCaptcha Sample.capitalsPage emptyWorld)
  = Normal (Some {| image := Sample.capitalsImg; input := Sample.capitalsInput |}).
Proof. reflexivity. Qed.

(** ** Image extractor *)

(** C3, in the code: the canvas is tainted and the fallback request for
    the image is answered with status 404 and an error page, yet the
    extractor does not fail; it never looks at the status and resolves
    with the data URL of the error page. *)
Theorem getImageDataUrl_404_resolves :
  exists response,
    canvas_toDataURL Sample.taintedMissing (node_path Sample.captchaImg)
    = Throw (JsError "SecurityError" "Tainted canvases may not be exported.")
    /\ req_url (imageRequest Sample.taintedMissing Sample.captchaImg)
       = "https://shop.example/captcha.png"
    /\ host_fetch Sample.taintedMissing (imageRequest Sample.taintedMissing Sample.captchaImg)
       = Normal response
    /\ status response = 404
    /\ ok response = false
    /\ response_blob response = Normal Sample.notFoundPage
    /\ getImageDataUrl Sample.taintedMissing Sample.captchaImg emptyWorld
       = (Normal "data:text/html;base64,PGgxPjQwNDwvaDE+",
          sent emptyWorld (imageRequest Sample.taintedMissing Sample.captchaImg)).
Proof. eexists. repeat split; reflexivity. Qed.

(** When serializing the canvas throws, the extractor requests the
    image's source URL, reads the response as a blob and has it encoded
    as a data URL; it fails exactly when the request is rejected, the
    blob cannot be read or the encoding fails, with that error, and the
    status of the response plays no part. *)
Lemma getImageDataUrl_fallback (h : Host) (img : Node) (w : World) (t : Thrown) :
  canvas_getContext h = true ->
  canvas_drawImage h (node_path img) = None ->
  canvas_toDataURL h (node_path img) = Throw t ->
  getImageDataUrl h img w
  = (match host_fetch h (imageRequest h img) with
     | Throw e => Throw e
     | Normal response =>
         match response_blob response with
         | Throw e => Throw e
         | Normal blob => reader_readAsDataURL h blob
         end
     end,
     sent w (imageRequest h img)).
Proof.
  intros Hctx Hdraw Hdata.
  unfold getImageDataUrl, try_catch, bind, lift, fetch.
  rewrite Hctx, Hdraw, Hdata. simpl negb. cbv iota.
  fold (sent w (imageRequest h img)).
  destruct (host_fetch h (imageRequest h img)) as [response|e]; [|reflexivity].
  destruct (response_blob response); reflexivity.
Qed.

(** ** Writing the solution back *)

Lemma pageUntouched_refl (w : World) : pageUntouched w w.
Proof. split; reflexivity. Qed.

Lemma pageUntouched_trans (w1 w2 w3 : World) :
  pageUntouched w1 w2 -> pageUntouched w2 w3 -> pageUntouched w1 w3.
Proof. intros [A B] [C D]. split; congruence. Qed.

Lemma findCaptchaImage_untouched (d : Document) (sels : list Selector) (w : World) :
  pageUntouched w (snd (findCaptchaImage d sels w)).
Proof.
  revert w. induction sels as [|s sels IH]; intros w.
  - apply pageUntouched_refl.
  - cbn [findCaptchaImage]. unfold bind. rewrite document_querySelector_eq.
    destruct (List.find (nodeMatches s) (allElements d)).
    + untouched.
    + eapply pageUntouched_trans; [|apply IH]. untouched.
Qed.

Lemma findCaptchaInput_untouched (img : Node) (parent : option Node)
    (sels : list Selector) (w : World) :
  pageUntouched w (snd (findCaptchaInput img parent sels w)).
Proof.
  destruct parent as [parent|]; [|destruct sels; apply pageUntouched_refl].
  revert w. induction sels as [|s sels IH]; intros w.
  - apply pageUntouched_refl.
  - cbn [findCaptchaInput]. unfold bind. rewrite querySelectorAll_eq.
    destruct (Array_prototype_sort _ _).
    + eapply pageUntouched_trans; [|apply IH]. untouched.
    + untouched.
Qed.

Lemma findCaptcha_untouched (d : Document) (w : World) :
  pageUntouched w (snd (findCaptcha d w)).
Proof.
  rewrite findCaptcha_eq.
  pose proof (findCaptchaImage_untouched d captchaImageSelectors w) as H1.
  destruct (findCaptchaImage d captchaImageSelectors w) as [[[img|]|t] w1];
    simpl in H1; try exact H1.
  pose proof (findCaptchaInput_untouched img (searchScope d img) captchaInputSelectors w1)
    as H2.
  destruct (findCaptchaInput img (searchScope d img) captchaInputSelectors w1)
    as [[[inp|]|t] w2]; simpl in H2 |- *; eapply pageUntouched_trans; eassumption.
Qed.

Lemma getImageDataUrl_untouched (h : Host) (img : Node) (w : World) :
  pageUntouched w (snd (getImageDataUrl h img w)).
Proof.
  unfold getImageDataUrl, try_catch, bind, lift, fetch, throw.
  destruct (canvas_getContext h); simpl negb; cbv iota; [|untouched].
  destruct (canvas_drawImage h (node_path img)); [untouched|].
  destruct (canvas_toDataURL h (node_path img)); [untouched|].
  destruct (host_fetch h (imageRequest h img)) as [response|e]; [|untouched].
  destruct (response_blob response); untouched.
Qed.

Lemma solveCaptcha_untouched (h : Host) (img : string) (w : World) :
  pageUntouched w (snd (solveCaptcha h img w)).
Proof.
  destruct (String.eqb_spec (apiUrl (configOf h)) "") as [E|N].
  - unfold solveCaptcha, getSolverConfig, bind, ret, throw. fold (configOf h).
    rewrite E. untouched.
  - rewrite (solveCaptcha_configured h img w N).
    destruct (host_fetch h _) as [response|e]; [|untouched].
    cbv zeta. destruct (ok response).
    + destruct (response_json response) as [data|e]; [|untouched].
      destruct (ToBoolean data); [|untouched].
      destruct (Get data "data") as [x|e]; [|untouched].
      destruct (ToBoolean x); untouched.
    + destruct (Get _ "message"); untouched.
Qed.

(** What [solveCaptcha] resolves with is truthy. *)
Lemma solveCaptcha_truthy (h : Host) (img : string) (w w' : World) (v : Value) :
  solveCaptcha h img w = (Normal v, w') -> ToBoolean v = true.
Proof.
  destruct (String.eqb_spec (apiUrl (configOf h)) "") as [E|N].
  - unfold solveCaptcha, getSolverConfig, bind, ret, throw. fold (configOf h).
    rewrite E. discriminate.
  - rewrite (solveCaptcha_configured h img w N).
    destruct (host_fetch h _) as [response|e]; [|discriminate].
    cbv zeta. destruct (ok response).
    + destruct (response_json response) as [data|e]; [|discriminate].
      destruct (ToBoolean data); [|discriminate].
      destruct (Get data "data") as [x|e]; [|discriminate].
      destruct (ToBoolean x) eqn:Hx; [|discriminate].
      intros [= <- _]. exact Hx.
    + destruct (Get _ "message"); discriminate.
Qed.



(** A reply with a truthy [solution] that the input accepts is written
    to it, as the input stores it, and announced by an [input] and a
    [change] event. *)
Lemma runCaptchaBreaker_with_solution (h : Host) (d : Document)
    (send : Value -> M Value) (w : World) (c : CaptchaCandidate) (w1 : World)
    (url : string) (w2 : World) (reply v : Value) (w3 : World) (stored : string) :
  findCaptcha d w = (Normal (Some c), w1) ->
  getImageDataUrl h (image c) w1 = (Normal url, w2) ->
  send (solveCaptchaMessage url) w2 = (Normal reply, w3) ->
  Get reply "solution" = Normal v ->
  ToBoolean v = true ->
  valueStored h (node_elem (input c)) v = Normal stored ->
  runCaptchaBreaker h d send w = (Normal tt, filled w3 (input c) stored).
Proof.
  intros Hfind Himg Hsend Hget Hv Hstored.
  unfold runCaptchaBreaker, bind, try_catch. rewrite Hfind, Himg, Hsend.
  unfold and_get, lift. rewrite (Get_truthy_receiver _ _ _ Hget Hv), Hget, Hv.
  unfold set_value, bind, lift. rewrite Hstored.
  unfold writeValue, dispatchEvent, filled, eventOn. simpl.
  rewrite <- app_assoc. reflexivity.
Qed.

(** When the input refuses the value, the [catch] block ends the run:
    nothing is written and no event is dispatched. *)
Lemma runCaptchaBreaker_value_refused (h : Host) (d : Document)
    (send : Value -> M Value) (w : World) (c : CaptchaCandidate) (w1 : World)
    (url : string) (w2 : World) (reply v : Value) (w3 : World) (t : Thrown) :
  findCaptcha d w = (Normal (Some c), w1) ->
  getImageDataUrl h (image c) w1 = (Normal url, w2) ->
  send (solveCaptchaMessage url) w2 = (Normal reply, w3) ->
  Get reply "solution" = Normal v ->
  ToBoolean v = true ->
  valueStored h (node_elem (input c)) v = Throw t ->
  runCaptchaBreaker h d send w = (Normal tt, w3).
Proof.
  intros Hfind Himg Hsend Hget Hv Hstored.
  unfold runCaptchaBreaker, bind, try_catch. rewrite Hfind, Himg, Hsend.
  unfold and_get, lift. rewrite (Get_truthy_receiver _ _ _ Hget Hv), Hget, Hv.
  unfold set_value, bind, lift. rewrite Hstored. reflexivity.
Qed.

(** The reply of the background script to a solved captcha. *)
Lemma onMessage_solved (h : Host) (url : string) (w w' : World) (v : Value) :
  solveCaptcha h url w = (Normal v, w') ->
  onMessage h (solveCaptchaMessage url) w = (Normal (VObj [("solution", v)]), w').
Proof.
  intros Hsolve. unfold onMessage, bind, try_catch, lift, ret. simpl.
  rewrite Hsolve. reflexivity.
Qed.




(** C10: when the reply to the solve-captcha message has no truthy
    [solution] (an error reply, [undefined], an empty solution), the run
    ends in the world in which the reply arrived: the content script
    writes no value and dispatches no event, before or after the reply. *)
Theorem runCaptchaBreaker_without_solution (h : Host) (d : Document)
    (send : Value -> M Value) (w : World) (c : CaptchaCandidate) (w1 : World)
    (url : string) (w2 : World) (reply : Value) (w3 : World) :
  findCaptcha d w = (Normal (Some c), w1) ->
  getImageDataUrl h (image c) w1 = (Normal url, w2) ->
  send (solveCaptchaMessage url) w2 = (Normal reply, w3) ->
  (forall v, Get reply "solution" = Normal v -> ToBoolean v = false) ->
  runCaptchaBreaker h d send w = (Normal tt, w3)
  /\ pageUntouched w w2
  /\ (pageUntouched w2 w3 ->
      inputValue (snd (runCaptchaBreaker h d send w)) !! node_path (input c)
      = inputValue w !! node_path (input c)
      /\ dispatched (snd (runCaptchaBreaker h d send w)) = dispatched w).
Proof.
  intros Hfind Himg Hsend Hno.
  assert (runCaptchaBreaker h d send w = (Normal tt, w3)) as Hrun.
  { unfold runCaptchaBreaker, bind, try_catch. rewrite Hfind, Himg, Hsend.
    unfold and_get, lift, ret.
    destruct (ToBoolean reply) eqn:Hr.
    - destruct (Get reply "solution") as [v|t] eqn:Hg.
      + rewrite (Hno v eq_refl). destruct (Get reply "error"); reflexivity.
      + reflexivity.
    - rewrite Hr. reflexivity. }
  pose proof (findCaptcha_untouched d w) as U1. rewrite Hfind in U1.
  pose proof (getImageDataUrl_untouched h (image c) w1) as U2. rewrite Himg in U2.
  pose proof (pageUntouched_trans _ _ _ U1 U2) as U12.
  split; [exact Hrun | split; [exact U12|]].
  intros U3. rewrite Hrun.
  destruct (pageUntouched_trans _ _ _ U12 U3) as [Hv Hd]. simpl.
  rewrite Hv, Hd. split; reflexivity.
Qed.

Lemma runCaptchaBreaker_without_solution_witness :
  runCaptchaBreaker Sample.badImage Sample.page (onMessage Sample.badImage) emptyWorld
  = (Normal tt,
     sent (snd (findCaptcha Sample.page emptyWorld))
       (solverRequest DEFAULT_SOLVER_CONFIG "data:image/png;base64,iVBORw0KGgo=")).
Proof.
  apply (runCaptchaBreaker_without_solution Sample.badImage Sample.page
           (onMessage Sample.badImage) emptyWorld
           {| image := Sample.captchaImg; input := Sample.inputBelow |}
           (snd (findCaptcha Sample.page emptyWorld))
           "data:image/png;base64,iVBORw0KGgo="
           (snd (findCaptcha Sample.page emptyWorld))
           (VObj [("error", VStr "Captcha solver API error: bad image")]));
    [reflexivity | reflexivity | reflexivity | intros v [= <-]; reflexivity].
Defined.

(** * Further properties *)

(** ** Solver client, further *)

Lemma solveCaptcha_world (h : Host) (img : string) (w : World) :
  apiUrl (configOf h) <> "" ->
  snd (solveCaptcha h img w) = sent w (solverRequest (configOf h) img).
Proof.
  intros Hurl. rewrite (solveCaptcha_configured h img w Hurl).
  destruct (host_fetch h _) as [response|e]; [|reflexivity].
  cbv zeta. destruct (ok response).
  - destruct (response_json response) as [data|e]; [|reflexivity].
    destruct (ToBoolean data); [|reflexivity].
    destruct (Get data "data") as [x|e]; [|reflexivity].
    destruct (ToBoolean x); reflexivity.
  - destruct (Get _ "message"); reflexivity.
Qed.

(** X1: [solveCaptcha] resolves with [v] exactly when the endpoint is
    configured, the one request is answered with a success status, the
    body parses as JSON and its field [data] is the truthy value [v]. *)
Theorem solveCaptcha_resolves_iff (h : Host) (img : string) (w w' : World) (v : Value) :
  solveCaptcha h img w = (Normal v, w')
  <-> apiUrl (configOf h) <> ""
      /\ w' = sent w (solverRequest (configOf h) img)
      /\ exists response body,
           host_fetch h (solverRequest (configOf h) img) = Normal response
           /\ ok response = true
           /\ response_json response = Normal body
           /\ Get body "data" = Normal v
           /\ ToBoolean v = true.
Proof.
  split.
  - intros H.
    destruct (String.eqb_spec (apiUrl (configOf h)) "") as [E|N].
    { revert H. unfold solveCaptcha, getSolverConfig, bind, ret, throw.
      fold (configOf h). rewrite E. discriminate. }
    split; [exact N|]. revert H. rewrite (solveCaptcha_configured h img w N).
    destruct (host_fetch h _) as [response|e]; [|discriminate].
    cbv zeta. destruct (ok response) eqn:Hok.
    + destruct (response_json response) as [data|e] eqn:Hj; [|discriminate].
      destruct (ToBoolean data); [|discriminate].
      destruct (Get data "data") as [x|e] eqn:Hg; [|discriminate].
      destruct (ToBoolean x) eqn:Hx; [|discriminate].
      intros [= <- <-]. split; [reflexivity|].
      exists response, data. auto.
    + destruct (Get _ "message"); discriminate.
  - intros (N & -> & response & body & Hf & Hok & Hj & Hg & Hv).
    rewrite (solveCaptcha_configured h img w N), Hf. cbv zeta. rewrite Hok, Hj.
    rewrite (Get_truthy_receiver _ _ _ Hg Hv), Hg, Hv. reflexivity.
Qed.

(** X2: with an endpoint configured, [solveCaptcha] issues exactly one
    request whatever the outcome: a POST to the endpoint whose form has the
    single field [image] holding the data URL as given, with the header
    [X-API-Key] when the key is non-empty and no header otherwise. *)
Theorem solveCaptcha_one_request (h : Host) (img : string) (w : World) :
  apiUrl (configOf h) <> "" ->
  network (snd (solveCaptcha h img w))
  = network w ++
    [{| req_url := apiUrl (configOf h);
        req_method := "POST";
        req_headers := if String.eqb (apiKey (configOf h)) "" then []
                       else [("X-API-Key", apiKey (configOf h))];
        req_body := [("image", img)] |}].
Proof.
  intros Hurl. rewrite (solveCaptcha_world h img w Hurl).
  unfold sent, solverRequest. simpl.
  destruct (String.eqb (apiKey (configOf h)) ""); reflexivity.
Qed.

Lemma solveCaptcha_one_request_witness :
  network (snd (solveCaptcha Scenario.offline "data:," emptyWorld))
  = [{| req_url := "https://ocr.example/solve";
        req_method := "POST";
        req_headers := [("X-API-Key", "k-123")];
        req_body := [("image", "data:,")] |}].
Proof.
  apply (solveCaptcha_one_request Scenario.offline "data:," emptyWorld). discriminate.
Defined.

(** X3: when the request itself is rejected (the network is down), the
    rejection of [fetch] is what [solveCaptcha] rejects with, unchanged. *)
Theorem solveCaptcha_network_error (h : Host) (img : string) (w : World) (t : Thrown) :
  apiUrl (configOf h) <> "" ->
  host_fetch h (solverRequest (configOf h) img) = Throw t ->
  fst (solveCaptcha h img w) = Throw t.
Proof.
  intros Hurl Hf. rewrite (solveCaptcha_configured h img w Hurl), Hf. reflexivity.
Qed.

Lemma solveCaptcha_network_error_witness :
  fst (solveCaptcha Scenario.offline "data:," emptyWorld)
  = Throw (JsError "TypeError" "Failed to fetch").
Proof.
  apply (solveCaptcha_network_error Scenario.offline "data:," emptyWorld);
    [discriminate | reflexivity].
Defined.

(** X4: a success status with a body that does not parse as JSON makes
    [solveCaptcha] reject with the parse error of [response.json()], not
    with the "no valid solution" error. *)
Theorem solveCaptcha_unparsable_success (h : Host) (img : string) (w : World)
    (response : Response) (t : Thrown) :
  apiUrl (configOf h) <> "" ->
  host_fetch h (solverRequest (configOf h) img) = Normal response ->
  ok response = true ->
  response_json response = Throw t ->
  fst (solveCaptcha h img w) = Throw t.
Proof.
  intros Hurl Hf Hok Hj.
  rewrite (solveCaptcha_configured h img w Hurl), Hf. cbv zeta. rewrite Hok, Hj.
  reflexivity.
Qed.

Lemma solveCaptcha_unparsable_success_witness :
  fst (solveCaptcha Scenario.htmlAnswer "data:," emptyWorld)
  = Throw (JsError "SyntaxError" "Unexpected token <").
Proof.
  apply (solveCaptcha_unparsable_success Scenario.htmlAnswer "data:," emptyWorld
           (Sample.respond 200 "OK" (Throw (JsError "SyntaxError" "Unexpected token <"))));
    [discriminate | reflexivity | reflexivity | reflexivity].
Defined.

(** X5: a non-success response whose JSON body has no [message], or a
    falsy one, gives the error "Captcha solver API error: Unknown error";
    the status text is not used once the body has parsed. *)
Theorem solveCaptcha_unknown_error (h : Host) (img : string) (w : World)
    (response : Response) (body msg : Value) :
  apiUrl (configOf h) <> "" ->
  host_fetch h (solverRequest (configOf h) img) = Normal response ->
  ok response = false ->
  response_json response = Normal body ->
  Get body "message" = Normal msg ->
  ToBoolean msg = false ->
  fst (solveCaptcha h img w) = Throw (Error "Captcha solver API error: Unknown error").
Proof.
  intros Hurl Hf Hok Hj Hg Hm.
  rewrite (solveCaptcha_configured h img w Hurl), Hf. cbv zeta. rewrite Hok, Hj, Hg.
  unfold or_else. rewrite Hm. reflexivity.
Qed.

Lemma solveCaptcha_unknown_error_witness :
  fst (solveCaptcha Scenario.emptyError "data:," emptyWorld)
  = Throw (Error "Captcha solver API error: Unknown error").
Proof.
  apply (solveCaptcha_unknown_error Scenario.emptyError "data:," emptyWorld
           (Sample.respond 503 "Service Unavailable" (Normal (VObj [])))
           (VObj []) VUndefined);
    [discriminate | reflexivity | reflexivity | reflexivity | reflexivity | reflexivity].
Defined.

(** X6: a non-success response whose body is the JSON value [null] makes
    [solveCaptcha] reject with the [TypeError] of reading [message] from
    [null], not with a "Captcha solver API error". *)
Theorem solveCaptcha_null_error_body (h : Host) (img : string) (w : World)
    (response : Response) :
  apiUrl (configOf h) <> "" ->
  host_fetch h (solverRequest (configOf h) img) = Normal response ->
  ok response = false ->
  response_json response = Normal VNull ->
  exists m, fst (solveCaptcha h img w) = Throw (JsError "TypeError" m).
Proof.
  intros Hurl Hf Hok Hj.
  rewrite (solveCaptcha_configured h img w Hurl), Hf. cbv zeta. rewrite Hok, Hj.
  eexists. reflexivity.
Qed.

Lemma solveCaptcha_null_error_body_witness :
  exists m, fst (solveCaptcha Scenario.nullError "data:," emptyWorld)
            = Throw (JsError "TypeError" m).
Proof.
  apply (solveCaptcha_null_error_body Scenario.nullError "data:," emptyWorld
           (Sample.respond 500 "Internal Server Error" (Normal VNull)));
    [discriminate | reflexivity | reflexivity | reflexivity].
Defined.

(** X7: with nothing stored, [solveCaptcha] posts the image to the default
    endpoint [http://localhost:8000/ocr] and sends no [X-API-Key] header. *)
Theorem solveCaptcha_default_endpoint (h : Host) (img : string) (w : World) :
  storage_captchaSolverConfig h = None ->
  network (snd (solveCaptcha h img w))
  = network w ++
    [{| req_url := "http://localhost:8000/ocr"; req_method := "POST";
        req_headers := []; req_body := [("image", img)] |}].
Proof.
  intros Hs.
  assert (configOf h = DEFAULT_SOLVER_CONFIG) as Hc by (unfold configOf; rewrite Hs; reflexivity).
  rewrite solveCaptcha_world by (rewrite Hc; discriminate).
  rewrite Hc. reflexivity.
Qed.

Lemma solveCaptcha_default_endpoint_witness :
  network (snd (solveCaptcha Sample.solved "data:," emptyWorld))
  = [{| req_url := "http://localhost:8000/ocr"; req_method := "POST";
        req_headers := []; req_body := [("image", "data:,")] |}].
Proof.
  apply (solveCaptcha_default_endpoint Sample.solved "data:," emptyWorld). reflexivity.
Defined.

(** X8: a configuration saved with [saveSolverConfig] is the one
    [getSolverConfig] returns next, and the next [solveCaptcha] sends its
    request as that configuration says. *)
Theorem saveSolverConfig_then_solve (config : CaptchaSolverConfig) (h : Host)
    (img : string) (w : World) :
  apiUrl config <> "" ->
  getSolverConfig (saveSolverConfig config h) w = (Normal config, w)
  /\ network (snd (solveCaptcha (saveSolverConfig config h) img w))
     = network w ++ [solverRequest config img].
Proof.
  intros Hurl. split; [reflexivity|].
  rewrite solveCaptcha_world by exact Hurl. reflexivity.
Qed.

Lemma saveSolverConfig_then_solve_witness :
  network (snd (solveCaptcha
                  (saveSolverConfig {| apiUrl := "https://ocr.example/v2"; apiKey := "" |}
                     Scenario.offline) "data:," emptyWorld))
  = [solverRequest {| apiUrl := "https://ocr.example/v2"; apiKey := "" |} "data:,"].
Proof.
  apply (saveSolverConfig_then_solve {| apiUrl := "https://ocr.example/v2"; apiKey := "" |}
           Scenario.offline "data:," emptyWorld).
  discriminate.
Defined.

(** ** Image extractor, further *)

(** X9: the extractor rejects with [t] in exactly three ways: there is no
    2D context and [t] is the setup error; drawing the image throws [t];
    or serializing the canvas throws and [t] is what the fallback request,
    reading the blob or encoding it fails with.  In the first two nothing
    is requested: there is no fallback for them. *)
Theorem getImageDataUrl_rejects_iff (h : Host) (img : Node) (w w' : World) (t : Thrown) :
  getImageDataUrl h img w = (Throw t, w')
  <-> (canvas_getContext h = false
       /\ t = Error "Could not get 2D context from canvas." /\ w' = w)
      \/ (canvas_getContext h = true
          /\ canvas_drawImage h (node_path img) = Some t /\ w' = w)
      \/ (canvas_getContext h = true
          /\ canvas_drawImage h (node_path img) = None
          /\ (exists t0, canvas_toDataURL h (node_path img) = Throw t0)
          /\ w' = sent w (imageRequest h img)
          /\ (host_fetch h (imageRequest h img) = Throw t
              \/ exists response,
                   host_fetch h (imageRequest h img) = Normal response
                   /\ (response_blob response = Throw t
                       \/ exists blob,
                            response_blob response = Normal blob
                            /\ reader_readAsDataURL h blob = Throw t))).
Proof.
  unfold getImageDataUrl, try_catch, bind, lift, fetch, throw.
  fold (sent w (imageRequest h img)).
  destruct (canvas_getContext h); simpl negb; cbv iota.
  2:{ split.
      - intros [= <- <-]. left. auto.
      - intros [(_ & -> & ->)|[(? & _)|(? & _)]]; [reflexivity | discriminate | discriminate]. }
  destruct (canvas_drawImage h (node_path img)) as [t1|].
  { split.
    - intros [= <- <-]. right. left. auto.
    - intros [(? & _)|[(_ & [= ->] & ->)|(_ & ? & _)]];
        [discriminate | reflexivity | discriminate]. }
  destruct (canvas_toDataURL h (node_path img)) as [u0|t0].
  { split; [discriminate|].
    intros [(? & _)|[(_ & ? & _)|(_ & _ & (t0 & ?) & _)]]; discriminate. }
  destruct (host_fetch h (imageRequest h img)) as [response|e].
  - destruct (response_blob response) as [blob|e] eqn:Hb.
    + split.
      * intros [= Hr <-]. right. right. repeat split; [eauto|].
        right. exists response. split; [reflexivity|]. right. exists blob. auto.
      * intros [(? & _)|[(_ & ? & _)|(_ & _ & _ & -> & [?|(r & [= <-] & [Hb'|(b & Hb' & Hr)])])]];
          try discriminate.
        -- rewrite Hb in Hb'. discriminate.
        -- rewrite Hb in Hb'. injection Hb' as <-. rewrite Hr. reflexivity.
    + split.
      * intros [= <- <-]. right. right. repeat split; [eauto|].
        right. exists response. split; [reflexivity|]. left. exact Hb.
      * intros [(? & _)|[(_ & ? & _)|(_ & _ & _ & -> & [?|(r & [= <-] & [Hb'|(b & Hb' & _)])])]];
          try discriminate.
        -- rewrite Hb in Hb'. injection Hb' as <-. reflexivity.
        -- rewrite Hb in Hb'. discriminate.
  - split.
    + intros [= <- <-]. right. right. repeat split; [eauto|]. left. reflexivity.
    + intros [(? & _)|[(_ & ? & _)|(_ & _ & _ & -> & [[= ->]|(r & ? & _)])]];
        try discriminate.
      reflexivity.
Qed.

(** X10: the extractor resolves with [u] exactly when a context exists,
    the image is drawn, and either the canvas serializes to [u] (and then
    nothing is requested) or serializing throws and the fallback request,
    the blob and the encoding all succeed with [u]. *)
Theorem getImageDataUrl_resolves_iff (h : Host) (img : Node) (w w' : World) (u : string) :
  getImageDataUrl h img w = (Normal u, w')
  <-> canvas_getContext h = true
      /\ canvas_drawImage h (node_path img) = None
      /\ ((canvas_toDataURL h (node_path img) = Normal u /\ w' = w)
          \/ (exists t response blob,
                canvas_toDataURL h (node_path img) = Throw t
                /\ host_fetch h (imageRequest h img) = Normal response
                /\ response_blob response = Normal blob
                /\ reader_readAsDataURL h blob = Normal u
                /\ w' = sent w (imageRequest h img))).
Proof.
  unfold getImageDataUrl, try_catch, bind, lift, fetch, throw.
  fold (sent w (imageRequest h img)).
  destruct (canvas_getContext h); simpl negb; cbv iota.
  2:{ split; [discriminate | intros [? _]; discriminate]. }
  destruct (canvas_drawImage h (node_path img)) as [t|].
  { split; [discriminate | intros (_ & ? & _); discriminate]. }
  destruct (canvas_toDataURL h (node_path img)) as [u0|t].
  - split.
    + intros [= <- <-]. auto.
    + intros (_ & _ & [[[= ->] ->]|(t & r & b & ? & _)]); [reflexivity | discriminate].
  - destruct (host_fetch h (imageRequest h img)) as [response|e].
    + destruct (response_blob response) as [blob|e] eqn:Hb.
      * split.
        -- intros [= Hr <-]. repeat split. right. exists t, response, blob. auto.
        -- intros (_ & _ & [[? _]|(t' & r & b & _ & [= <-] & Hb' & Hr & ->)]);
             [discriminate|].
           rewrite Hb in Hb'. injection Hb' as <-. rewrite Hr. reflexivity.
      * split; [discriminate|].
        intros (_ & _ & [[? _]|(t' & r & b & _ & [= <-] & Hb' & _)]); [discriminate|].
        rewrite Hb in Hb'. discriminate.
    + split; [discriminate|].
      intros (_ & _ & [[? _]|(t' & r & b & _ & ? & _)]); discriminate.
Qed.

(** X11: the extractor never touches the page, and it uses the network
    only when serializing the canvas throws, then for one GET of the
    image's source URL without headers or body. *)
Theorem getImageDataUrl_network (h : Host) (img : Node) (w : World) :
  pageUntouched w (snd (getImageDataUrl h img w))
  /\ domQueries (snd (getImageDataUrl h img w)) = domQueries w
  /\ (network (snd (getImageDataUrl h img w)) = network w
      \/ (exists t, canvas_toDataURL h (node_path img) = Throw t)
         /\ network (snd (getImageDataUrl h img w))
            = network w ++ [{| req_url := src h img; req_method := "GET";
                               req_headers := []; req_body := [] |}]).
Proof.
  unfold getImageDataUrl, try_catch, bind, lift, fetch, throw.
  destruct (canvas_getContext h); simpl negb; cbv iota.
  2:{ repeat split. left. reflexivity. }
  destruct (canvas_drawImage h (node_path img)) as [t|].
  { repeat split. left. reflexivity. }
  destruct (canvas_toDataURL h (node_path img)) as [u0|t].
  { repeat split. left. reflexivity. }
  destruct (host_fetch h (imageRequest h img)) as [response|e].
  - destruct (response_blob response); repeat split; right; split; eauto.
  - repeat split. right. split; eauto.
Qed.

(** ** Detector, further *)

Lemma subtrees_below (p : Path) (cs : list Element) (n : Node) :
  forall i, In n (subtrees p i cs) ->
    exists j c q, nth_error cs j = Some c
                  /\ node_path n = p ++ (i + j)%nat :: q
                  /\ elementAt c q = Some (node_elem n).
Proof.
  induction cs as [|c cs IH]; intros i; cbn [subtrees].
  - intros [].
  - intros Hin. apply in_app_or in Hin. destruct Hin as [Hin|Hin].
    + destruct (subtree_elementAt _ _ _ Hin) as (q & Hp & Hq).
      exists 0%nat, c, q. rewrite Nat.add_0_r, Hp, <- app_assoc. auto.
    + destruct (IH _ Hin) as (j & c' & q & Hj & Hp & Hq).
      exists (S j), c', q. rewrite Nat.add_succ_r. auto.
Qed.

Lemma descendants_below (scope n : Node) :
  In n (descendants scope) -> strictlyBelow scope n.
Proof.
  unfold descendants. rewrite subtree_unfold. cbn [tl]. intros Hin.
  destruct (subtrees_below _ _ _ _ Hin) as (j & c & q & Hj & Hp & Hq).
  exists (j :: q). split; [discriminate | split; [exact Hp|]].
  cbn [elementAt]. rewrite Hj. exact Hq.
Qed.

Lemma elementAt_app (p q : Path) :
  forall e x, elementAt e p = Some x -> elementAt e (p ++ q) = elementAt x q.
Proof.
  induction p as [|i p IH]; intros e x; cbn [elementAt app].
  - intros [= <-]. reflexivity.
  - destruct (nth_error (children e) i); [apply IH | discriminate].
Qed.

Lemma findCaptchaImage_matches (d : Document) (sels : list Selector) (w : World) (img : Node) :
  fst (findCaptchaImage d sels w) = Normal (Some img) -> matchesOneOf sels img.
Proof.
  revert w. induction sels as [|s sels IH]; intros w; cbn [findCaptchaImage].
  - discriminate.
  - unfold bind. rewrite document_querySelector_eq.
    destruct (List.find (nodeMatches s) (allElements d)) as [n|] eqn:Hn.
    + simpl. intros [= <-]. apply List.find_some in Hn.
      exists s. split; [left; reflexivity | apply Hn].
    + intros H. destruct (IH _ H) as (s' & Hs' & Hm).
      exists s'. split; [right; exact Hs' | exact Hm].
Qed.

Lemma findCaptchaInput_matches (img parent : Node) (sels : list Selector) (w : World)
    (x : Node) :
  fst (findCaptchaInput img (Some parent) sels w) = Normal (Some x) ->
  exists s, In s sels /\ In x (List.filter (nodeMatches s) (descendants parent)).
Proof.
  revert w. induction sels as [|s sels IH]; intros w; cbn [findCaptchaInput].
  - discriminate.
  - unfold bind. rewrite querySelectorAll_eq.
    destruct (Array_prototype_sort (compareFn img)
                (List.filter (nodeMatches s) (descendants parent)))
      as [|y rest] eqn:Hs.
    + intros H. destruct (IH _ H) as (s' & Hs' & Hin).
      exists s'. split; [right; exact Hs' | exact Hin].
    + simpl. intros [= <-]. exists s. split; [left; reflexivity|].
      exact (Array_prototype_sort_In _ _ _ _ Hs).
Qed.

(** An input is found only within a scope. *)
Lemma findCaptchaInput_scope (img : Node) (parent : option Node)
    (sels : list Selector) (w : World) (x : Node) :
  fst (findCaptchaInput img parent sels w) = Normal (Some x) ->
  exists scope, parent = Some scope.
Proof.
  destruct parent as [scope|]; [eauto|]. destruct sels; discriminate.
Qed.

Lemma findCaptchaInput_none (img parent : Node) (sels : list Selector) (w : World) :
  Forall (fun s => List.filter (nodeMatches s) (descendants parent) = []) sels ->
  findCaptchaInput img (Some parent) sels w
  = (Normal None, queried w (map (scopedQuery parent) sels)).
Proof.
  intros H. revert w. induction H as [|s sels Hs _ IH]; intros w.
  - simpl. rewrite queried_nil. reflexivity.
  - cbn [findCaptchaInput]. unfold bind. rewrite querySelectorAll_eq, Hs.
    rewrite Array_prototype_sort_empty, IH, queried_app. reflexivity.
Qed.

Lemma nodeMatches_tag (s : Selector) (n : Node) :
  nodeMatches s n = true -> tagName (node_elem n) = sel_tag s.
Proof.
  unfold nodeMatches, matches. intros H. apply andb_true_iff in H.
  apply String.eqb_eq, H.
Qed.

Lemma findCaptcha_parts (d : Document) (w : World) (c : CaptchaCandidate) :
  fst (findCaptcha d w) = Normal (Some c) ->
  fst (findCaptchaImage d captchaImageSelectors w) = Normal (Some (image c))
  /\ fst (findCaptchaInput (image c) (searchScope d (image c)) captchaInputSelectors
            (snd (findCaptchaImage d captchaImageSelectors w)))
     = Normal (Some (input c)).
Proof.
  rewrite findCaptcha_eq.
  destruct (findCaptchaImage d captchaImageSelectors w) as [[[img|]|t] w1];
    try discriminate.
  cbn [fst snd].
  destruct (findCaptchaInput img (searchScope d img) captchaInputSelectors w1)
    as [[[inp|]|t] w2] eqn:Hi; try discriminate.
  cbn [fst]. intros [= <-]. cbn [fst snd image input]. rewrite Hi. auto.
Qed.

(** X12: when an image is found but no element of the search scope
    matches any of the seven input selectors, [findCaptcha] returns [null],
    after querying the scope with each of the seven in order. *)
Theorem findCaptcha_no_input (d : Document) (w : World) (img scope : Node) :
  fst (findCaptchaImage d captchaImageSelectors w) = Normal (Some img) ->
  searchScope d img = Some scope ->
  Forall (fun s => List.filter (nodeMatches s) (descendants scope) = [])
         captchaInputSelectors ->
  fst (findCaptcha d w) = Normal None
  /\ domQueries (snd (findCaptcha d w))
     = domQueries (snd (findCaptchaImage d captchaImageSelectors w))
       ++ map (scopedQuery scope) captchaInputSelectors.
Proof.
  intros Himg Hscope Hnone. rewrite findCaptcha_eq.
  destruct (findCaptchaImage d captchaImageSelectors w) as [r w1].
  simpl in Himg. subst r.
  rewrite Hscope, (findCaptchaInput_none img scope captchaInputSelectors w1 Hnone).
  split; reflexivity.
Qed.

Lemma findCaptcha_no_input_witness :
  fst (findCaptcha Scenario.imageOnly emptyWorld) = Normal None.
Proof.
  apply (findCaptcha_no_input Scenario.imageOnly emptyWorld Scenario.imageOnlyImg
           Scenario.imageOnlyBody);
    [reflexivity | reflexivity | repeat constructor].
Defined.

(** X13: a candidate that [findCaptcha] returns pairs an [img] element of
    the document matching one of the image selectors with an [input]
    element matching one of the input selectors; the input lies strictly
    below the search scope, at its path in the document, and so inside the
    form that encloses the image when there is one. *)
Theorem findCaptcha_candidate (d : Document) (w : World) (c : CaptchaCandidate) :
  fst (findCaptcha d w) = Normal (Some c) ->
  In (image c) (allElements d)
  /\ tagName (node_elem (image c)) = "img"
  /\ matchesOneOf captchaImageSelectors (image c)
  /\ tagName (node_elem (input c)) = "input"
  /\ matchesOneOf captchaInputSelectors (input c)
  /\ (exists scope, searchScope d (image c) = Some scope
                    /\ strictlyBelow scope (input c))
  /\ elementAt (documentElement d) (node_path (input c)) = Some (node_elem (input c))
  /\ (forall form, closest d form_selector (image c) = Some form ->
                   encloses d form (input c)).
Proof.
  intros H. destruct (findCaptcha_parts d w c H) as [Himg Hinp].
  pose proof (findCaptchaImage_matches _ _ _ _ Himg) as Mi.
  destruct (findCaptchaInput_scope _ _ _ _ _ Hinp) as [scope Hsome].
  rewrite Hsome in Hinp.
  destruct (findCaptchaInput_matches _ _ _ _ _ Hinp) as (s & Hs & Hin).
  apply filter_In in Hin. destruct Hin as [Hdesc Hm].
  pose proof (descendants_below _ _ Hdesc) as Hbelow.
  assert (forall sels n, matchesOneOf sels n ->
            forall t, Forall (fun s => sel_tag s = t) sels -> tagName (node_elem n) = t) as Htag.
  { intros sels n (s0 & Hs0 & Hm0) t Hall. rewrite List.Forall_forall in Hall.
    rewrite (nodeMatches_tag _ _ Hm0). apply Hall, Hs0. }
  assert (elementAt (documentElement d) (node_path scope) = Some (node_elem scope))
    as Hscope.
  { pose proof (searchScope_spec d (image c) scope Hsome) as Hc.
    destruct (closest d form_selector (image c)) as [form|].
    - destruct Hc as [-> Hc]. apply Hc.
    - destruct Hc as [Hb _]. apply (document_body_elementAt d scope Hb). }
  split; [exact (findCaptchaImage_found _ _ _ _ Himg)|].
  split; [apply (Htag _ _ Mi); repeat constructor|].
  split; [exact Mi|].
  split; [apply (Htag captchaInputSelectors); [exists s; auto | repeat constructor]|].
  split; [exists s; auto|].
  split; [exists scope; split; [exact Hsome | exact Hbelow]|].
  destruct Hbelow as (q & _ & Hp & Hq).
  split.
  - rewrite Hp, (elementAt_app _ q _ _ Hscope). exact Hq.
  - intros form Hform. unfold searchScope in Hsome. rewrite Hform in Hsome.
    injection Hsome as <-.
    split; [exists q; exact Hp | exact Hscope].
Qed.

Lemma findCaptcha_candidate_witness :
  tagName (node_elem Sample.captchaImg) = "img"
  /\ exists scope, searchScope Sample.page Sample.captchaImg = Some scope
                   /\ strictlyBelow scope Sample.inputBelow.
Proof.
  destruct (findCaptcha_candidate Sample.page emptyWorld
              {| image := Sample.captchaImg; input := Sample.inputBelow |} eq_refl)
    as (_ & Ht & _ & _ & _ & Hb & _).
  exact (conj Ht Hb).
Defined.

(** ** The run of the content script, further *)

(** In a document with a body the image has a search scope. *)
Lemma searchScope_some (d : Document) (b img : Node) :
  document_body d = Some b -> exists scope, searchScope d img = Some scope.
Proof.
  intros Hb. unfold searchScope. rewrite Hb.
  destruct (closest d form_selector img); eauto.
Qed.

(** In a document with a body the detector ends normally. *)
Lemma findCaptcha_normal (d : Document) (b : Node) (w : World) :
  document_body d = Some b ->
  exists r, fst (findCaptcha d w) = Normal r.
Proof.
  intros Hb. rewrite findCaptcha_eq.
  destruct (findCaptchaImage_normal d captchaImageSelectors w) as (r & w1 & ->).
  destruct r as [img|]; [|eexists; reflexivity].
  destruct (searchScope_some d b img Hb) as [scope ->].
  destruct (findCaptchaInput_normal img scope captchaInputSelectors w1)
    as (r & w2 & ->).
  destruct r; eexists; reflexivity.
Qed.

Lemma findCaptchaImage_network (d : Document) (sels : list Selector) (w : World) :
  network (snd (findCaptchaImage d sels w)) = network w.
Proof.
  revert w. induction sels as [|s sels IH]; intros w; [reflexivity|].
  cbn [findCaptchaImage]. unfold bind. rewrite document_querySelector_eq.
  destruct (List.find (nodeMatches s) (allElements d)); [reflexivity|].
  rewrite IH. reflexivity.
Qed.

Lemma findCaptchaInput_network (img : Node) (parent : option Node)
    (sels : list Selector) (w : World) :
  network (snd (findCaptchaInput img parent sels w)) = network w.
Proof.
  destruct parent as [parent|]; [|destruct sels; reflexivity].
  revert w. induction sels as [|s sels IH]; intros w; [reflexivity|].
  cbn [findCaptchaInput]. unfold bind. rewrite querySelectorAll_eq.
  destruct (Array_prototype_sort _ _); [|reflexivity].
  rewrite IH. reflexivity.
Qed.

Lemma findCaptcha_network (d : Document) (w : World) :
  network (snd (findCaptcha d w)) = network w.
Proof.
  rewrite findCaptcha_eq.
  pose proof (findCaptchaImage_network d captchaImageSelectors w) as H1.
  destruct (findCaptchaImage d captchaImageSelectors w) as [[[img|]|t] w1];
    simpl in H1; try exact H1.
  pose proof (findCaptchaInput_network img (searchScope d img) captchaInputSelectors w1)
    as H2.
  destruct (findCaptchaInput img (searchScope d img) captchaInputSelectors w1)
    as [[[inp|]|t] w2]; simpl in H2 |- *; congruence.
Qed.

(** The reply of the background listener to a solve-captcha message. *)
Lemma onMessage_solveCaptcha (h : Host) (url : string) (w : World) :
  onMessage h (solveCaptchaMessage url) w
  = match solveCaptcha h url w with
    | (Normal v, w') => (Normal (VObj [("solution", v)]), w')
    | (Throw t, w') => (Normal (VObj [("error", message_of t)]), w')
    end.
Proof.
  unfold onMessage, bind, try_catch, lift, ret. simpl.
  destruct (solveCaptcha h url w) as [[v|t] w']; reflexivity.
Qed.

Lemma run_never_throws (h : Host) (d : Document) (b : Node)
    (send : Value -> M Value) (w : World) :
  document_body d = Some b ->
  fst (runCaptchaBreaker h d send w) = Normal tt.
Proof.
  intros Hb. unfold runCaptchaBreaker, bind at 1.
  destruct (findCaptcha_normal d b w Hb) as [r Hr].
  destruct (findCaptcha d w) as [r0 w1]. simpl in Hr. subst r0.
  destruct r as [c|]; [|reflexivity].
  unfold try_catch.
  match goal with |- fst (match ?m with _ => _ end) = _ => destruct m as [[[]|t] w'] end;
    reflexivity.
Qed.

(** When the detector throws, the run rejects with what it threw:
    [await findCaptcha()] stands before the [try]. *)
Lemma run_detector_throws (h : Host) (d : Document)
    (send : Value -> M Value) (w : World) (t : Thrown) (w1 : World) :
  findCaptcha d w = (Throw t, w1) ->
  runCaptchaBreaker h d send w = (Throw t, w1).
Proof. intros H. unfold runCaptchaBreaker, bind. rewrite H. reflexivity. Qed.

(** X14: on a document with a body [runCaptchaBreaker] never rejects,
    whatever the page, the host and the message channel do: a failure of
    the extractor, of [sendMessage] or of the write to the input ends in
    the [catch] of the run. *)
Theorem runCaptchaBreaker_never_throws (h : Host) (d : Document) (b : Node)
    (send : Value -> M Value) (w : World) :
  document_body d = Some b ->
  fst (runCaptchaBreaker h d send w) = Normal tt.
Proof. exact (run_never_throws h d b send w). Qed.

Lemma runCaptchaBreaker_never_throws_witness :
  fst (runCaptchaBreaker Sample.solved Sample.uploadPage (onMessage Sample.solved)
         emptyWorld) = Normal tt.
Proof.
  apply (runCaptchaBreaker_never_throws Sample.solved Sample.uploadPage
           Sample.uploadBody (onMessage Sample.solved) emptyWorld).
  reflexivity.
Defined.



(** X15: when the detector finds nothing, the run ends there: the image
    is not extracted, no message is sent, nothing is requested, no value
    is written and no event is dispatched. *)
Theorem runCaptchaBreaker_not_found (h : Host) (d : Document)
    (send : Value -> M Value) (w : World) :
  fst (findCaptcha d w) = Normal None ->
  runCaptchaBreaker h d send w = (Normal tt, snd (findCaptcha d w))
  /\ network (snd (runCaptchaBreaker h d send w)) = network w
  /\ pageUntouched w (snd (runCaptchaBreaker h d send w)).
Proof.
  intros Hnone.
  assert (runCaptchaBreaker h d send w = (Normal tt, snd (findCaptcha d w))) as Hrun.
  { unfold runCaptchaBreaker, bind.
    destruct (findCaptcha d w) as [r w1]. simpl in Hnone. subst r. reflexivity. }
  rewrite Hrun. split; [reflexivity | split].
  - apply findCaptcha_network.
  - apply findCaptcha_untouched.
Qed.

Lemma runCaptchaBreaker_not_found_witness :
  runCaptchaBreaker Sample.solved Sample.plainPage (onMessage Sample.solved) emptyWorld
  = (Normal tt, snd (findCaptcha Sample.plainPage emptyWorld)).
Proof.
  apply (runCaptchaBreaker_not_found Sample.solved Sample.plainPage
           (onMessage Sample.solved) emptyWorld).
  reflexivity.
Defined.

Lemma run_extraction_fails (h : Host) (d : Document)
    (send : Value -> M Value) (w : World) (c : CaptchaCandidate) (w1 : World)
    (t : Thrown) (w2 : World) :
  findCaptcha d w = (Normal (Some c), w1) ->
  getImageDataUrl h (image c) w1 = (Throw t, w2) ->
  runCaptchaBreaker h d send w = (Normal tt, w2)
  /\ pageUntouched w w2.
Proof.
  intros Hfind Himg. split.
  - unfold runCaptchaBreaker, bind, try_catch. rewrite Hfind, Himg. reflexivity.
  - pose proof (findCaptcha_untouched d w) as U1. rewrite Hfind in U1.
    pose proof (getImageDataUrl_untouched h (image c) w1) as U2. rewrite Himg in U2.
    exact (pageUntouched_trans _ _ _ U1 U2).
Qed.

(** X16: when the extractor fails, the run ends in the world the
    extractor left: no message is sent to the background script and the
    input is not touched. *)
Theorem runCaptchaBreaker_extraction_fails (h : Host) (d : Document)
    (send : Value -> M Value) (w : World) (c : CaptchaCandidate) (w1 : World)
    (t : Thrown) (w2 : World) :
  findCaptcha d w = (Normal (Some c), w1) ->
  getImageDataUrl h (image c) w1 = (Throw t, w2) ->
  runCaptchaBreaker h d send w = (Normal tt, w2)
  /\ pageUntouched w w2.
Proof. exact (run_extraction_fails h d send w c w1 t w2). Qed.

Lemma runCaptchaBreaker_extraction_fails_witness :
  runCaptchaBreaker Scenario.noContext Sample.page (onMessage Scenario.noContext) emptyWorld
  = (Normal tt, snd (findCaptcha Sample.page emptyWorld)).
Proof.
  apply (runCaptchaBreaker_extraction_fails Scenario.noContext Sample.page
           (onMessage Scenario.noContext) emptyWorld
           {| image := Sample.captchaImg; input := Sample.inputBelow |}
           (snd (findCaptcha Sample.page emptyWorld))
           (Error "Could not get 2D context from canvas."));
    reflexivity.
Defined.

(** X17: the background listener answers every solve-captcha message and
    never rejects: with [{solution}] holding the truthy value that
    [solveCaptcha] resolved with, or with [{error}] holding the message of
    what it rejected with. *)
Theorem onMessage_reply (h : Host) (url : string) (w : World) :
  exists reply,
    onMessage h (solveCaptchaMessage url) w = (Normal reply, snd (solveCaptcha h url w))
    /\ ((exists v, fst (solveCaptcha h url w) = Normal v
                   /\ ToBoolean v = true
                   /\ reply = VObj [("solution", v)])
        \/ (exists t, fst (solveCaptcha h url w) = Throw t
                      /\ reply = VObj [("error", message_of t)])).
Proof.
  rewrite onMessage_solveCaptcha.
  destruct (solveCaptcha h url w) as [[v|t] w'] eqn:Hs.
  - eexists. split; [reflexivity|]. left. exists v.
    split; [reflexivity | split; [|reflexivity]].
    exact (solveCaptcha_truthy h url w w' v Hs).
  - eexists. split; [reflexivity|]. right. exists t. split; reflexivity.
Qed.

Lemma run_solver_fails (h : Host) (d : Document) (w : World)
    (c : CaptchaCandidate) (w1 : World) (url : string) (w2 : World)
    (t : Thrown) (w3 : World) :
  findCaptcha d w = (Normal (Some c), w1) ->
  getImageDataUrl h (image c) w1 = (Normal url, w2) ->
  solveCaptcha h url w2 = (Throw t, w3) ->
  runExtension h d w = (Normal tt, w3)
  /\ pageUntouched w w3.
Proof.
  intros Hfind Himg Hsolve.
  assert (onMessage h (solveCaptchaMessage url) w2
          = (Normal (VObj [("error", message_of t)]), w3)) as Hsend.
  { rewrite onMessage_solveCaptcha, Hsolve. reflexivity. }
  pose proof (findCaptcha_untouched d w) as U1. rewrite Hfind in U1.
  pose proof (getImageDataUrl_untouched h (image c) w1) as U2. rewrite Himg in U2.
  pose proof (solveCaptcha_untouched h url w2) as U3. rewrite Hsolve in U3.
  split.
  - unfold runExtension, runCaptchaBreaker, bind, try_catch.
    rewrite Hfind, Himg, Hsend. unfold and_get, lift, ret. simpl.
    destruct (message_of t); reflexivity.
  - exact (pageUntouched_trans _ _ _ (pageUntouched_trans _ _ _ U1 U2) U3).
Qed.

(** X18: when the solver client fails at any point, the run of the
    extension ends normally with the page as it was: the error travels
    back as [{error}] and the content script writes and dispatches
    nothing. *)
Theorem runExtension_solver_failure (h : Host) (d : Document) (w : World)
    (c : CaptchaCandidate) (w1 : World) (url : string) (w2 : World)
    (t : Thrown) (w3 : World) :
  findCaptcha d w = (Normal (Some c), w1) ->
  getImageDataUrl h (image c) w1 = (Normal url, w2) ->
  solveCaptcha h url w2 = (Throw t, w3) ->
  runExtension h d w = (Normal tt, w3)
  /\ pageUntouched w w3.
Proof. exact (run_solver_fails h d w c w1 url w2 t w3). Qed.

Lemma runExtension_solver_failure_witness :
  pageUntouched emptyWorld (snd (runExtension Scenario.offline Sample.page emptyWorld)).
Proof.
  destruct (runExtension_solver_failure Scenario.offline Sample.page emptyWorld
              {| image := Sample.captchaImg; input := Sample.inputBelow |}
              (snd (findCaptcha Sample.page emptyWorld))
              "data:image/png;base64,AAAA"
              (snd (findCaptcha Sample.page emptyWorld))
              (JsError "TypeError" "Failed to fetch")
              (sent (snd (findCaptcha Sample.page emptyWorld))
                 (solverRequest (configOf Scenario.offline) "data:image/png;base64,AAAA"))
              eq_refl eq_refl eq_refl) as [Hrun Hu].
  rewrite Hrun. exact Hu.
Defined.

(** X19: a run of the extension either leaves every element value and the
    event log as they were, or it found a candidate, extracted its image,
    had the solver client resolve with a solution, and changed the page in
    one way only: the value of the candidate's input became what that
    input stores for that solution, and an [input] and a [change] event
    were dispatched on that input.  No other element is written to, and
    an input that refuses the value leaves the page as it was. *)
Theorem runExtension_frame (h : Host) (d : Document) (w : World) :
  pageUntouched w (snd (runExtension h d w))
  \/ exists c url w2 v w3 stored,
       findCaptcha d w = (Normal (Some c), snd (findCaptcha d w))
       /\ getImageDataUrl h (image c) (snd (findCaptcha d w)) = (Normal url, w2)
       /\ solveCaptcha h url w2 = (Normal v, w3)
       /\ valueStored h (node_elem (input c)) v = Normal stored
       /\ inputValue (snd (runExtension h d w))
          = <[node_path (input c) := stored]> (inputValue w)
       /\ dispatched (snd (runExtension h d w))
          = dispatched w ++ [eventOn (input c) "input"; eventOn (input c) "change"].
Proof.
  destruct (findCaptcha d w) as [r w1] eqn:Hfind.
  pose proof (findCaptcha_untouched d w) as U1. rewrite Hfind in U1. simpl in U1.
  destruct r as [[c|]|t].
  2:{ left. unfold runExtension, runCaptchaBreaker, bind. rewrite Hfind. exact U1. }
  2:{ left. unfold runExtension.
      rewrite (run_detector_throws h d (onMessage h) w t w1 Hfind). exact U1. }
  destruct (getImageDataUrl h (image c) w1) as [[url|t] w2] eqn:Himg.
  2:{ left. unfold runExtension.
      destruct (run_extraction_fails h d (onMessage h) w c w1 t w2 Hfind Himg)
        as [-> Hu]. exact Hu. }
  pose proof (getImageDataUrl_untouched h (image c) w1) as U2. rewrite Himg in U2.
  simpl in U2.
  destruct (solveCaptcha h url w2) as [[v|t] w3] eqn:Hsolve.
  - pose proof (solveCaptcha_untouched h url w2) as U3. rewrite Hsolve in U3. simpl in U3.
    pose proof (solveCaptcha_truthy h url w2 w3 v Hsolve) as Hv.
    pose proof (onMessage_solved h url w2 w3 v Hsolve) as Hsend.
    pose proof (pageUntouched_trans _ _ _ (pageUntouched_trans _ _ _ U1 U2) U3) as U.
    destruct (valueStored h (node_elem (input c)) v) as [stored|t] eqn:Hstored.
    + right. exists c, url, w2, v, w3, stored. unfold runExtension.
      rewrite (runCaptchaBreaker_with_solution h d (onMessage h) w c w1 url w2
                 (VObj [("solution", v)]) v w3 stored Hfind Himg Hsend eq_refl Hv
                 Hstored).
      destruct U as [Hval Hev]. simpl. rewrite Hval, Hev. auto 10.
    + left. unfold runExtension.
      rewrite (runCaptchaBreaker_value_refused h d (onMessage h) w c w1 url w2
                 (VObj [("solution", v)]) v w3 t Hfind Himg Hsend eq_refl Hv Hstored).
      exact U.
  - left.
    destruct (run_solver_fails h d w c w1 url w2 t w3 Hfind Himg Hsolve)
      as [-> Hu]. exact Hu.
Qed.

(** X24: when [sendMessage] rejects (no listener answers, the channel
    closes), the run ends normally in the world of the rejection: the
    error is swallowed by the [catch] and nothing is written to the
    input. *)
Theorem runCaptchaBreaker_send_fails (h : Host) (d : Document)
    (send : Value -> M Value) (w : World) (c : CaptchaCandidate) (w1 : World)
    (url : string) (w2 : World) (t : Thrown) (w3 : World) :
  findCaptcha d w = (Normal (Some c), w1) ->
  getImageDataUrl h (image c) w1 = (Normal url, w2) ->
  send (solveCaptchaMessage url) w2 = (Throw t, w3) ->
  runCaptchaBreaker h d send w = (Normal tt, w3)
  /\ pageUntouched w w2.
Proof.
  intros Hfind Himg Hsend. split.
  - unfold runCaptchaBreaker, bind, try_catch. rewrite Hfind, Himg, Hsend. reflexivity.
  - pose proof (findCaptcha_untouched d w) as U1. rewrite Hfind in U1.
    pose proof (getImageDataUrl_untouched h (image c) w1) as U2. rewrite Himg in U2.
    exact (pageUntouched_trans _ _ _ U1 U2).
Qed.

Lemma runCaptchaBreaker_send_fails_witness :
  runCaptchaBreaker Sample.solved Sample.page
    (fun _ => throw (Error "Could not establish connection. Receiving end does not exist."))
    emptyWorld
  = (Normal tt, snd (findCaptcha Sample.page emptyWorld)).
Proof.
  apply (runCaptchaBreaker_send_fails Sample.solved Sample.page
           (fun _ => throw (Error "Could not establish connection. Receiving end does not exist."))
           emptyWorld
           {| image := Sample.captchaImg; input := Sample.inputBelow |}
           (snd (findCaptcha Sample.page emptyWorld))
           "data:image/png;base64,iVBORw0KGgo="
           (snd (findCaptcha Sample.page emptyWorld))
           (Error "Could not establish connection. Receiving end does not exist."));
    reflexivity.
Defined.

Lemma findCaptchaImage_log (d : Document) (sels : list Selector) (w : World) :
  exists qs, domQueries (snd (findCaptchaImage d sels w)) = domQueries w ++ qs
             /\ Forall (fun q => query_scope q = None) qs.
Proof.
  revert w. induction sels as [|s sels IH]; intros w.
  - exists []. rewrite app_nil_r. split; [reflexivity | constructor].
  - cbn [findCaptchaImage]. unfold bind. rewrite document_querySelector_eq.
    destruct (List.find (nodeMatches s) (allElements d)).
    + exists [docQuery s]. split; [reflexivity | repeat constructor].
    + destruct (IH (queried w [docQuery s])) as (qs & Hq & Hall).
      exists (docQuery s :: qs). rewrite Hq. simpl. rewrite <- app_assoc.
      split; [reflexivity | constructor; [reflexivity | exact Hall]].
Qed.

Lemma findCaptchaInput_log (img : Node) (parent : option Node)
    (sels : list Selector) (w : World) :
  exists qs, domQueries (snd (findCaptchaInput img parent sels w)) = domQueries w ++ qs
             /\ Forall (fun q => exists scope, parent = Some scope
                                              /\ query_scope q = Some (node_path scope)) qs.
Proof.
  destruct parent as [parent|].
  2:{ exists []. rewrite app_nil_r. split; [destruct sels; reflexivity | constructor]. }
  revert w. induction sels as [|s sels IH]; intros w.
  - exists []. rewrite app_nil_r. split; [reflexivity | constructor].
  - cbn [findCaptchaInput]. unfold bind. rewrite querySelectorAll_eq.
    destruct (Array_prototype_sort _ _).
    + destruct (IH (queried w [scopedQuery parent s])) as (qs & Hq & Hall).
      exists (scopedQuery parent s :: qs). rewrite Hq. simpl. rewrite <- app_assoc.
      split; [reflexivity | constructor; [eauto | exact Hall]].
    + exists [scopedQuery parent s]. split; [reflexivity | repeat constructor; eauto].
Qed.

(** X25: the detector only reads the page: it writes no value,
    dispatches no event and requests nothing, and every query it makes is
    either [document.querySelector] or [querySelectorAll] on the search
    scope of the image it found. *)
Theorem findCaptcha_read_only (d : Document) (w : World) :
  pageUntouched w (snd (findCaptcha d w))
  /\ network (snd (findCaptcha d w)) = network w
  /\ exists qs,
       domQueries (snd (findCaptcha d w)) = domQueries w ++ qs
       /\ Forall (fun q =>
                    query_scope q = None
                    \/ exists img,
                         fst (findCaptchaImage d captchaImageSelectors w) = Normal (Some img)
                         /\ exists scope,
                              searchScope d img = Some scope
                              /\ query_scope q = Some (node_path scope)) qs.
Proof.
  split; [apply findCaptcha_untouched | split; [apply findCaptcha_network|]].
  rewrite findCaptcha_eq.
  destruct (findCaptchaImage_log d captchaImageSelectors w) as (q1 & Hq1 & Hall1).
  destruct (findCaptchaImage d captchaImageSelectors w) as [[[img|]|t] w1];
    cbn [fst snd] in *.
  - destruct (findCaptchaInput_log img (searchScope d img) captchaInputSelectors w1)
      as (q2 & Hq2 & Hall2).
    exists (q1 ++ q2). split.
    + destruct (findCaptchaInput img (searchScope d img) captchaInputSelectors w1)
        as [[[inp|]|t] w2]; cbn [fst snd] in *; rewrite Hq2, Hq1, app_assoc; reflexivity.
    + apply Forall_app. split.
      * eapply List.Forall_impl; [|exact Hall1]. intros q Hq. left. exact Hq.
      * eapply List.Forall_impl; [|exact Hall2]. intros q Hq. right. exists img. auto.
  - exists q1. split; [exact Hq1|].
    eapply List.Forall_impl; [|exact Hall1]. intros q Hq. left. exact Hq.
  - exists q1. split; [exact Hq1|].
    eapply List.Forall_impl; [|exact Hall1]. intros q Hq. left. exact Hq.
Qed.

(** ** The on-demand trigger and the settings form *)

Lemma run_normal (h : Host) (d : Document) (b : Node) (send : Value -> M Value)
    (w : World) :
  document_body d = Some b ->
  runCaptchaBreaker h d send w = (Normal tt, snd (runCaptchaBreaker h d send w)).
Proof.
  intros Hb. pose proof (run_never_throws h d b send w Hb) as H.
  destruct (runCaptchaBreaker h d send w) as [r w']. simpl in H. subst r. reflexivity.
Qed.

(** X20: on a document with a body the content script answers the
    on-demand trigger with [{status: 'completed'}] once the run is over,
    whatever the run did: also when no captcha was found, solving failed
    or the input refused the value. *)
Theorem content_onMessage_completed (h : Host) (d : Document) (b : Node)
    (send : Value -> M Value) (request : Value) (w : World) :
  document_body d = Some b ->
  Get request "action" = Normal (VStr "findAndSolveCaptcha") ->
  content_onMessage h d send request w
  = (Normal (VObj [("status", VStr "completed")]),
     snd (runCaptchaBreaker h d send w)).
Proof.
  intros Hb Ha. unfold content_onMessage, bind at 1, lift. rewrite Ha. simpl.
  unfold bind, ret. rewrite (run_normal h d b send w Hb). reflexivity.
Qed.

Lemma content_onMessage_completed_witness :
  fst (content_onMessage Sample.solved Sample.plainPage (onMessage Sample.solved)
         (VObj [("action", VStr "findAndSolveCaptcha")]) emptyWorld)
  = Normal (VObj [("status", VStr "completed")]).
Proof.
  rewrite (content_onMessage_completed Sample.solved Sample.plainPage
             Sample.plainBody
             (onMessage Sample.solved) (VObj [("action", VStr "findAndSolveCaptcha")])
             emptyWorld eq_refl eq_refl).
  reflexivity.
Defined.

(** X21: what the popup shows when it opens is the configuration the
    solver client works with: the stored record, or the same default
    endpoint and empty key when nothing is stored. *)
Theorem loadConfig_shows_solver_config (h : Host) (w : World) :
  exists config,
    getSolverConfig h w = (Normal config, w)
    /\ loadConfig h = {| apiUrlInput := apiUrl config; apiKeyInput := apiKey config |}.
Proof.
  unfold getSolverConfig, loadConfig, ret.
  destruct (storage_captchaSolverConfig h) as [stored|]; eexists; split; reflexivity.
Qed.

(** X22: saving the form with a URL field that trims to the empty string
    stores the empty URL; the default endpoint is not substituted, and
    every later [solveCaptcha] fails with the configuration error without
    a request. *)
Theorem submitSettings_blank_url (trim : string -> string) (form : PopupForm)
    (h : Host) (img : string) (w : World) :
  trim (apiUrlInput form) = "" ->
  solveCaptcha (submitSettings trim form h) img w
  = (Throw (Error "Captcha solver API URL is not configured."), w).
Proof.
  intros Hblank. unfold solveCaptcha, getSolverConfig, bind, ret, throw.
  unfold submitSettings, storage_set. simpl. rewrite Hblank. reflexivity.
Qed.

Lemma submitSettings_blank_url_witness :
  solveCaptcha (submitSettings Scenario.dropBlanks Scenario.blankForm Sample.solved)
    "data:," emptyWorld
  = (Throw (Error "Captcha solver API URL is not configured."), emptyWorld).
Proof.
  apply (submitSettings_blank_url Scenario.dropBlanks Scenario.blankForm Sample.solved).
  reflexivity.
Defined.

(** X23: after the form is saved with a URL that does not trim to the
    empty string, the popup shows the trimmed fields when it opens again,
    and [solveCaptcha] posts to the trimmed URL, with the trimmed key as
    [X-API-Key] when that is non-empty. *)
Theorem submitSettings_then_solve (trim : string -> string) (form : PopupForm)
    (h : Host) (img : string) (w : World) :
  trim (apiUrlInput form) <> "" ->
  loadConfig (submitSettings trim form h)
  = {| apiUrlInput := trim (apiUrlInput form); apiKeyInput := trim (apiKeyInput form) |}
  /\ network (snd (solveCaptcha (submitSettings trim form h) img w))
     = network w ++
       [{| req_url := trim (apiUrlInput form);
           req_method := "POST";
           req_headers := if String.eqb (trim (apiKeyInput form)) "" then []
                          else [("X-API-Key", trim (apiKeyInput form))];
           req_body := [("image", img)] |}].
Proof.
  intros Hurl. split; [reflexivity|].
  rewrite solveCaptcha_world by exact Hurl.
  unfold sent, solverRequest, submitSettings, storage_set, configOf. simpl.
  destruct (String.eqb (trim (apiKeyInput form)) ""); reflexivity.
Qed.

Lemma submitSettings_then_solve_witness :
  network (snd (solveCaptcha
                  (submitSettings Scenario.dropBlanks Scenario.filledForm Scenario.offline)
                  "data:," emptyWorld))
  = [{| req_url := "https://ocr.example/solve"; req_method := "POST";
        req_headers := []; req_body := [("image", "data:,")] |}].
Proof.
  apply (submitSettings_then_solve Scenario.dropBlanks Scenario.filledForm
           Scenario.offline "data:," emptyWorld).
  discriminate.
Defined.

(** ** The detector's failure and the sort, further *)

(** X27: when no element matches any image selector, the detector
    returns [null] after the six [document.querySelector] calls for [img]
    selectors and nothing else: no input selector is tried. *)
Theorem findCaptcha_no_image (d : Document) (w : World) :
  Forall (fun s => Forall (fun n => nodeMatches s n = false) (allElements d))
         captchaImageSelectors ->
  findCaptcha d w = (Normal None, queried w (map docQuery captchaImageSelectors))
  /\ Forall (fun q => query_scope q = None
                      /\ sel_tag (query_selector q) = "img"
                      /\ ~ In (query_selector q) captchaInputSelectors)
            (map docQuery captchaImageSelectors).
Proof.
  intros Hnone. split.
  - rewrite findCaptcha_eq, findCaptchaImage_none; [reflexivity|].
    eapply List.Forall_impl; [|exact Hnone]. intros s Hs. apply find_none, Hs.
  - repeat constructor; simpl; intros H;
      repeat (destruct H as [H|H]; [discriminate H|]); exact H.
Qed.

Lemma findCaptcha_no_image_witness :
  findCaptcha Sample.plainPage emptyWorld
  = (Normal None, queried emptyWorld (map docQuery captchaImageSelectors)).
Proof.
  apply (findCaptcha_no_image Sample.plainPage emptyWorld).
  repeat constructor.
Defined.

(** X28: the detector throws in one case only: an image is found, no
    form encloses it and the document has no body; what it throws is the
    [TypeError] of calling [querySelectorAll] on [null], after the
    document queries that found the image.  On a document with a body it
    always returns. *)
Theorem findCaptcha_throws_iff (d : Document) (w : World) (t : Thrown) (w1 : World) :
  findCaptcha d w = (Throw t, w1)
  <-> exists img,
        findCaptchaImage d captchaImageSelectors w = (Normal (Some img), w1)
        /\ closest d form_selector img = None
        /\ document_body d = None
        /\ t = JsError "TypeError"
                 "Cannot read properties of null (reading 'querySelectorAll')".
Proof.
  rewrite findCaptcha_eq. split.
  - destruct (findCaptchaImage_normal d captchaImageSelectors w) as (r & w1' & ->).
    destruct r as [img|]; [|discriminate].
    destruct (searchScope d img) as [scope|] eqn:Hscope.
    + destruct (findCaptchaInput_normal img scope captchaInputSelectors w1')
        as (r & w2 & ->).
      destruct r; discriminate.
    + cbn. intros [= <- <-]. exists img. unfold searchScope in Hscope.
      destruct (closest d form_selector img); [discriminate|]. auto.
  - intros (img & -> & Hc & Hb & ->). unfold searchScope. rewrite Hc, Hb. reflexivity.
Qed.

(** X29: when the detected input is a file upload and the solver client
    resolves with a string, the input refuses the value, the [catch]
    block takes over and the run ends with the page as it was: no value
    is written and no event is dispatched. *)
Theorem runExtension_file_input (h : Host) (d : Document) (w : World)
    (c : CaptchaCandidate) (w1 : World) (url : string) (w2 : World)
    (s : string) (w3 : World) :
  findCaptcha d w = (Normal (Some c), w1) ->
  getImageDataUrl h (image c) w1 = (Normal url, w2) ->
  solveCaptcha h url w2 = (Normal (VStr s), w3) ->
  inputType (node_elem (input c)) = "file" ->
  runExtension h d w = (Normal tt, w3)
  /\ pageUntouched w w3.
Proof.
  intros Hfind Himg Hsolve Hfile.
  pose proof (solveCaptcha_truthy h url w2 w3 (VStr s) Hsolve) as Hv.
  assert (exists t, valueStored h (node_elem (input c)) (VStr s) = Throw t) as [t Ht].
  { unfold valueStored. rewrite Hfile. cbn. simpl in Hv.
    destruct (String.eqb s ""); [discriminate | eauto]. }
  pose proof (findCaptcha_untouched d w) as U1. rewrite Hfind in U1.
  pose proof (getImageDataUrl_untouched h (image c) w1) as U2. rewrite Himg in U2.
  pose proof (solveCaptcha_untouched h url w2) as U3. rewrite Hsolve in U3.
  split.
  - unfold runExtension.
    apply (runCaptchaBreaker_value_refused h d (onMessage h) w c w1 url w2
             (VObj [("solution", VStr s)]) (VStr s) w3 t Hfind Himg
             (onMessage_solved h url w2 w3 (VStr s) Hsolve) eq_refl Hv Ht).
  - exact (pageUntouched_trans _ _ _ (pageUntouched_trans _ _ _ U1 U2) U3).
Qed.

Lemma runExtension_file_input_witness :
  pageUntouched emptyWorld (snd (runExtension Sample.solved Sample.uploadPage emptyWorld)).
Proof.
  destruct (runExtension_file_input Sample.solved Sample.uploadPage emptyWorld
              {| image := Sample.uploadImg; input := Sample.uploadInput |}
              (snd (findCaptcha Sample.uploadPage emptyWorld))
              "data:image/png;base64,iVBORw0KGgo="
              (snd (findCaptcha Sample.uploadPage emptyWorld))
              "AB12"
              (sent (snd (findCaptcha Sample.uploadPage emptyWorld))
                 (solverRequest DEFAULT_SOLVER_CONFIG "data:image/png;base64,iVBORw0KGgo="))
              eq_refl eq_refl eq_refl eq_refl) as [Hrun Hu].
  rewrite Hrun. exact Hu.
Defined.

Lemma StronglySorted_among {A : Type} (R R' : A -> A -> Prop) (l : list A) :
  (forall a b, In a l -> In b l -> R a b -> R' a b) ->
  StronglySorted R l -> StronglySorted R' l.
Proof.
  intros H Hs. induction Hs as [|a l Hs IH Ha]; constructor.
  - apply IH. intros x y Hx Hy. apply H; right; assumption.
  - rewrite List.Forall_forall in *. intros b Hb.
    apply H; [left; reflexivity | right; exact Hb | exact (Ha b Hb)].
Qed.

(** X30: when the corners have finite coordinates, the [sort] call
    rearranges the matches so that no match comes before one at a smaller
    rounded distance from the image. *)
Theorem sort_by_rounded_distance (img : Node) (inputs : list Node) :
  finiteCorner img = true ->
  Forall (fun n => finiteCorner n = true) inputs ->
  Permutation (Array_prototype_sort (compareFn img) inputs) inputs
  /\ StronglySorted
       (fun a b => (roundedDistanceTo img b <? roundedDistanceTo img a)%float = false)
       (Array_prototype_sort (compareFn img) inputs).
Proof.
  intros Himg Hall.
  assert (Permutation (Array_prototype_sort (compareFn img) inputs) inputs) as Hp
    by apply Array_sort_Permutation.
  split; [exact Hp|].
  assert (Array_prototype_sort (compareFn img) inputs
          = Array_sort (fun a b => Z.compare (keyOf img a) (keyOf img b)) inputs) as E.
  { unfold Array_prototype_sort. apply Array_sort_ext.
    intros a b Ha Hb. rewrite List.Forall_forall in Hall.
    rewrite compareFn_rounded. apply SortCompare_sub;
      apply roundedDistanceTo_isNumber; auto. }
  apply (StronglySorted_among (fun a b => keyOf img a <= keyOf img b)).
  - intros a b Ha Hb Hab. rewrite List.Forall_forall in Hall.
    rewrite DoubleFacts.ltb_ord.
    + apply Z.ltb_ge. exact Hab.
    + apply roundedDistanceTo_isNumber; [exact Himg|].
      apply Hall. eapply Permutation_in; [exact Hp | exact Hb].
    + apply roundedDistanceTo_isNumber; [exact Himg|].
      apply Hall. eapply Permutation_in; [exact Hp | exact Ha].
  - rewrite E. apply Array_sort_sorted.
Qed.

Lemma sort_by_rounded_distance_witness :
  Permutation
    (Array_prototype_sort (compareFn Sample.farImg) [Sample.farA; Sample.farB])
    [Sample.farA; Sample.farB].
Proof.
  apply (sort_by_rounded_distance Sample.farImg [Sample.farA; Sample.farB]);
    [reflexivity | repeat constructor].
Defined.

(** The sample host prints integers as the language does. *)
Example printInteger_samples :
  Sample.printInteger 1234 = "1234" /\ Sample.printInteger (-7) = "-7"
  /\ Sample.printInteger 0 = "0".
Proof. repeat split. Qed.
